(** * My-React-Movie-App: the two resolvers of [src/App.jsx]

    A shallow embedding of [fetchMovies] (the Search Resolver) and
    [fetchTrendingMovies] (the Trending Resolver) of [src/App.jsx], together
    with the part of ECMA-262 they rely on: strings as sequences of UTF-16
    code units, [encodeURIComponent], truthiness, completion records
    (normal / return / throw) and [try]/[catch]/[finally].

    The external collaborators (the movie metadata provider reached through
    [fetch], the document store reached through [appwrite.js], the build-time
    environment) are a record of outcomes, [World]; every call the code makes
    is recorded in a trace of [Event]s. *)

From Stdlib Require Import List NArith ZArith String Ascii Bool Lia.
From Stdlib Require Import DecimalString.
Import ListNotations.

(** ** ECMAScript strings and the URI functions *)

Module URI.

Local Open Scope N_scope.

(** A String value is a finite sequence of 16-bit code units. *)
Definition JSString := list N.

Definition isCodeUnit (u : N) : bool := u <? 65536.

(** A string literal of the source, as code units. *)
Definition js (s : string) : JSString :=
  map N_of_ascii (list_ascii_of_string s).

(** The empty string, ['']. *)
Definition emptyString : JSString := [].

(** ToBoolean on a String: only the empty string is falsy. *)
Definition truthy (s : JSString) : bool :=
  match s with [] => false | _ :: _ => true end.

Definition isLeadingSurrogate (u : N) : bool := (0xD800 <=? u) && (u <=? 0xDBFF).
Definition isTrailingSurrogate (u : N) : bool := (0xDC00 <=? u) && (u <=? 0xDFFF).

(** String.prototype.isWellFormed: no unpaired surrogate. *)
Fixpoint isWellFormed (s : JSString) : bool :=
  match s with
  | [] => true
  | c :: rest =>
      if isLeadingSurrogate c then
        match rest with
        | d :: rest' => isTrailingSurrogate d && isWellFormed rest'
        | [] => false
        end
      else if isTrailingSurrogate c then false
      else isWellFormed rest
  end.

(** ECMA-262 UTF16SurrogatePairToCodePoint. *)
Definition UTF16SurrogatePairToCodePoint (lead trail : N) : N :=
  (lead - 0xD800) * 0x400 + (trail - 0xDC00) + 0x10000.

(** ECMA-262 UTF16EncodeCodePoint. *)
Definition UTF16EncodeCodePoint (cp : N) : JSString :=
  if cp <=? 0xFFFF then [cp]
  else [ (cp - 0x10000) / 0x400 + 0xD800 ; (cp - 0x10000) mod 0x400 + 0xDC00 ].

(** The UTF-8 transformation of a code point into octets. *)
Definition UTF8Octets (cp : N) : list N :=
  if cp <? 0x80 then [cp]
  else if cp <? 0x800 then [0xC0 + cp / 0x40; 0x80 + cp mod 0x40]
  else if cp <? 0x10000 then
    [0xE0 + cp / 0x1000; 0x80 + (cp / 0x40) mod 0x40; 0x80 + cp mod 0x40]
  else
    [0xF0 + cp / 0x40000; 0x80 + (cp / 0x1000) mod 0x40;
     0x80 + (cp / 0x40) mod 0x40; 0x80 + cp mod 0x40].

(** One uppercase hexadecimal digit, as a code unit. *)
Definition hexDigit (d : N) : N := if d <? 10 then 48 + d else 55 + d.

(** ["%" + StringPad(hex, 2, "0", start)] for one octet. *)
Definition percentOctet (b : N) : JSString :=
  [37; hexDigit (b / 16); hexDigit (b mod 16)].

Definition percentOctets (bs : list N) : JSString :=
  flat_map percentOctet bs.

(** The unescaped set of [encodeURIComponent]: the ASCII word characters
    and ["-.!~*'()"]. *)
Definition unescapedSet : JSString :=
  js "ABCDEFGHIJKLMNOPQRSTUVWXYZabcdefghijklmnopqrstuvwxyz0123456789_-.!~*'()".

Definition unescaped (c : N) : bool := existsb (N.eqb c) unescapedSet.

(** ECMA-262 Encode(string, extraUnescaped) with the empty extra set, that
    is [encodeURIComponent].  [None] is the URIError thrown at an unpaired
    surrogate (CodePointAt reports [IsUnpairedSurrogate]). *)
Fixpoint encodeURIComponent (s : JSString) : option JSString :=
  match s with
  | [] => Some []
  | c :: rest =>
      if unescaped c then option_map (cons c) (encodeURIComponent rest)
      else if isLeadingSurrogate c then
        match rest with
        | d :: rest' =>
            if isTrailingSurrogate d then
              option_map
                (app (percentOctets (UTF8Octets (UTF16SurrogatePairToCodePoint c d))))
                (encodeURIComponent rest')
            else None
        | [] => None
        end
      else if isTrailingSurrogate c then None
      else option_map (app (percentOctets (UTF8Octets c))) (encodeURIComponent rest)
  end.

(** ECMA-262 ParseHexOctet, one digit: 0-9, A-F, a-f. *)
Definition hexValue (c : N) : option N :=
  if (48 <=? c) && (c <=? 57) then Some (c - 48)
  else if (65 <=? c) && (c <=? 70) then Some (c - 55)
  else if (97 <=? c) && (c <=? 102) then Some (c - 87)
  else None.

Definition ParseHexOctet (h l : N) : option N :=
  match hexValue h, hexValue l with
  | Some a, Some b => Some (16 * a + b)
  | _, _ => None
  end.

(** What Decode reads at one position: a code unit taken as it is, or the
    octet of an escape sequence [%XX]. *)
Inductive Item : Type :=
  | Lit (c : N)
  | Esc (b : N).

(** First half of ECMA-262 Decode: every ["%"] must start an escape
    sequence of two hexadecimal digits. *)
Fixpoint unescapeItems (s : JSString) : option (list Item) :=
  match s with
  | [] => Some []
  | c :: rest =>
      if c =? 37 then
        match rest with
        | h :: l :: rest' =>
            match ParseHexOctet h l with
            | Some b => option_map (cons (Esc b)) (unescapeItems rest')
            | None => None
            end
        | _ => None
        end
      else option_map (cons (Lit c)) (unescapeItems rest)
  end.

Definition isContinuation (b : N) : bool := (0x80 <=? b) && (b <? 0xC0).

(** Second half of ECMA-262 Decode: an escaped octet below 0x80 is that
    character; otherwise its leading one bits give the length n of a UTF-8
    sequence (n = 1 and n > 4 are errors), the next n - 1 items must be
    escaped continuation octets, and the sequence must be the valid UTF-8
    encoding of a code point (shortest form, no surrogate, at most
    0x10FFFF), which is appended in UTF-16. *)
Fixpoint decodeItems (l : list Item) : option JSString :=
  match l with
  | [] => Some []
  | Lit c :: r => option_map (cons c) (decodeItems r)
  | Esc b :: r =>
      if b <? 0x80 then option_map (cons b) (decodeItems r)
      else if b <? 0xC0 then None
      else if b <? 0xE0 then
        match r with
        | Esc b2 :: r' =>
            let v := (b - 0xC0) * 0x40 + (b2 - 0x80) in
            if isContinuation b2 && (0x80 <=? v)
            then option_map (app (UTF16EncodeCodePoint v)) (decodeItems r')
            else None
        | _ => None
        end
      else if b <? 0xF0 then
        match r with
        | Esc b2 :: Esc b3 :: r' =>
            let v := (b - 0xE0) * 0x1000 + (b2 - 0x80) * 0x40 + (b3 - 0x80) in
            if isContinuation b2 && isContinuation b3 && (0x800 <=? v)
               && negb ((0xD800 <=? v) && (v <=? 0xDFFF))
            then option_map (app (UTF16EncodeCodePoint v)) (decodeItems r')
            else None
        | _ => None
        end
      else if b <? 0xF8 then
        match r with
        | Esc b2 :: Esc b3 :: Esc b4 :: r' =>
            let v := (b - 0xF0) * 0x40000 + (b2 - 0x80) * 0x1000
                     + (b3 - 0x80) * 0x40 + (b4 - 0x80) in
            if isContinuation b2 && isContinuation b3 && isContinuation b4
               && (0x10000 <=? v) && (v <=? 0x10FFFF)
            then option_map (app (UTF16EncodeCodePoint v)) (decodeItems r')
            else None
        | _ => None
        end
      else None
  end.

(** [decodeURIComponent]: ECMA-262 Decode with an empty preserve set;
    [None] is the URIError. *)
Definition decodeURIComponent (s : JSString) : option JSString :=
  match unescapeItems s with
  | Some items => decodeItems items
  | None => None
  end.

(** A Unicode scalar value: a code point that is not a surrogate. *)
Definition isScalar (cp : N) : Prop :=
  cp < 0x110000 /\ ~ (0xD800 <= cp <= 0xDFFF).

(** The code units an encoded component is made of: the unescaped set
    (which holds the hexadecimal digits) and ["%"]; none of the reserved
    characters of a query string. *)
Definition urlSafe (c : N) : Prop := unescaped c = true \/ c = 37.

End URI.

(** ** The application: state, collaborators and the two resolvers *)

Module App.
Import URI.

(** A movie record of the provider; the resolvers pass it through. *)
Record Movie : Type := { id : Z; title : JSString }.

(** Exceptions of the run: [new Error(message)] and the engine's own
    TypeError, ReferenceError and URIError. *)
Inductive JSError : Type :=
  | Err (message : JSString)
  | TypeErr (message : JSString)
  | ReferenceErr (message : JSString)
  | URIErr (message : JSString).

(** Error.prototype.toString for a non-empty name: the name alone when
    the message is empty, otherwise name, [": "] and message. *)
Definition nameAndMessage (name : string) (m : JSString) : JSString :=
  if truthy m then js name ++ js ": " ++ m else js name.

(** ToString of an error object, as a template literal prints it. *)
Definition errorToString (e : JSError) : JSString :=
  match e with
  | Err m => nameAndMessage "Error" m
  | TypeErr m => nameAndMessage "TypeError" m
  | ReferenceErr m => nameAndMessage "ReferenceError" m
  | URIErr m => nameAndMessage "URIError" m
  end.

(** A settled promise. *)
Inductive Settled (A : Type) : Type :=
  | Fulfilled (a : A)
  | Rejected (reason : JSError).
Arguments Fulfilled {A} a.
Arguments Rejected {A} reason.

(** The JSON body of a response, by the fields the code reads; [None] is
    an absent field. *)
Record Body : Type := {
  Response : option JSString;
  Error : option JSString;
  results : option (list Movie) }.

(** A [fetch] response: [json] is the promise of [response.json()], whose
    value [None] is the JSON value [null]. *)
Record HttpResponse : Type := {
  ok : bool;
  status : N;
  json : Settled (option Body) }.

(** The collaborators; [fetch] is always called with the constant
    [API_OPTIONS] (a GET carrying the bearer credential), so its answer is
    a function of the endpoint.  [API_KEY] is [import.meta.env.VITE_TMDB_API_KEY]
    ([None] when undefined); [getTrendingMovies n] is the outcome of the
    n-th cache read of the run, whose value [None] is [undefined];
    [saveTrendingMovies] is what a function of that name would answer if
    the identifier were bound. *)
Record World : Type := {
  API_KEY : option JSString;
  fetch : JSString -> Settled HttpResponse;
  getTrendingMovies : nat -> Settled (option (list Movie));
  updateSearchCount : JSString -> option Movie -> Settled unit;
  saveTrendingMovies : list Movie -> Settled unit }.

(** The free identifiers the resolvers call, and the bindings line 9 of
    the module imports from [./appwrite.js]. *)
Inductive Ident : Type :=
  | id_getTrendingMovies
  | id_updateSearchCount
  | id_saveTrendingMovies.

Definition Ident_eqb (a b : Ident) : bool :=
  match a, b with
  | id_getTrendingMovies, id_getTrendingMovies => true
  | id_updateSearchCount, id_updateSearchCount => true
  | id_saveTrendingMovies, id_saveTrendingMovies => true
  | _, _ => false
  end.

Definition Ident_name (x : Ident) : JSString :=
  match x with
  | id_getTrendingMovies => js "getTrendingMovies"
  | id_updateSearchCount => js "updateSearchCount"
  | id_saveTrendingMovies => js "saveTrendingMovies"
  end.

Definition imports : list Ident := [id_getTrendingMovies; id_updateSearchCount].

(** The [useState] cells of the component. *)
Record AppState : Type := {
  searchTerm : JSString;
  debouncedSearchTerm : JSString;
  errorMessage : JSString;
  movieList : list Movie;
  trendingMovies : list Movie;
  isLoading : bool }.

(** The state of the first render: the arguments of the six [useState]. *)
Definition initialState : AppState :=
  {| searchTerm := emptyString; debouncedSearchTerm := emptyString;
     errorMessage := emptyString;
     movieList := []; trendingMovies := []; isLoading := false |}.

(** What a run does to the outside, in order. *)
Inductive Event : Type :=
  | NetworkRead (endpoint : JSString)
  | CounterWrite (query : JSString) (movie : option Movie)
  | CacheRead
  | CacheWrite (movies : list Movie)
  | ConsoleError (text : JSString).

Record Machine : Type := {
  state : AppState;
  trace : list Event;
  cacheReads : nat }.

(** Completion records: a statement list ends normally, by [return], or
    by a throw. *)
Inductive Completion (A : Type) : Type :=
  | Normal (a : A)
  | Return
  | Throw (e : JSError).
Arguments Normal {A} a.
Arguments Return {A}.
Arguments Throw {A} e.

Definition M (A : Type) : Type := Machine -> Completion A * Machine.

Definition ret {A} (a : A) : M A := fun m => (Normal a, m).

Definition bind {A B} (c : M A) (k : A -> M B) : M B :=
  fun m =>
    match c m with
    | (Normal a, m') => k a m'
    | (Return, m') => (Return, m')
    | (Throw e, m') => (Throw e, m')
    end.

Definition throw {A} (e : JSError) : M A := fun m => (Throw e, m).

Definition return_ {A} : M A := fun m => (Return, m).

Declare Scope js_scope.
Delimit Scope js_scope with js.
Notation "x <- c ;; k" := (bind c (fun x => k))
  (at level 61, c at next level, right associativity) : js_scope.
Notation "c ;; k" := (bind c (fun _ => k))
  (at level 61, right associativity) : js_scope.
Local Open Scope js_scope.

(** [try { body } catch (error) { handler }]. *)
Definition tryCatch {A} (body : M A) (handler : JSError -> M A) : M A :=
  fun m =>
    match body m with
    | (Throw e, m') => handler e m'
    | r => r
    end.

(** [try { body } finally { fin }]: [fin] runs after every completion of
    [body], whose completion stands unless [fin] ends abruptly. *)
Definition tryFinally {A} (body : M A) (fin : M unit) : M A :=
  fun m =>
    match body m with
    | (c, m') =>
        match fin m' with
        | (Normal _, m'') => (c, m'')
        | (Return, m'') => (Return, m'')
        | (Throw e, m'') => (Throw e, m'')
        end
    end.

(** [await p]. *)
Definition await {A} (p : Settled A) : M A :=
  match p with
  | Fulfilled a => ret a
  | Rejected e => throw e
  end.

Definition emit (e : Event) : M unit :=
  fun m => (Normal tt,
            {| state := state m; trace := trace m ++ [e]; cacheReads := cacheReads m |}).

Definition modify (f : AppState -> AppState) : M unit :=
  fun m => (Normal tt,
            {| state := f (state m); trace := trace m; cacheReads := cacheReads m |}).

Definition setIsLoading (b : bool) : M unit :=
  modify (fun s =>
    {| searchTerm := searchTerm s; debouncedSearchTerm := debouncedSearchTerm s;
       errorMessage := errorMessage s; movieList := movieList s;
       trendingMovies := trendingMovies s; isLoading := b |}).

Definition setErrorMessage (msg : JSString) : M unit :=
  modify (fun s =>
    {| searchTerm := searchTerm s; debouncedSearchTerm := debouncedSearchTerm s;
       errorMessage := msg; movieList := movieList s;
       trendingMovies := trendingMovies s; isLoading := isLoading s |}).

Definition setMovieList (l : list Movie) : M unit :=
  modify (fun s =>
    {| searchTerm := searchTerm s; debouncedSearchTerm := debouncedSearchTerm s;
       errorMessage := errorMessage s; movieList := l;
       trendingMovies := trendingMovies s; isLoading := isLoading s |}).

Definition setTrendingMovies (l : list Movie) : M unit :=
  modify (fun s =>
    {| searchTerm := searchTerm s; debouncedSearchTerm := debouncedSearchTerm s;
       errorMessage := errorMessage s; movieList := movieList s;
       trendingMovies := l; isLoading := isLoading s |}).

Definition console_error (text : JSString) : M unit := emit (ConsoleError text).

(** Evaluating an identifier reference against the bindings in scope:
    a ReferenceError when it is unresolvable. *)
Definition GetValue (scope : list Ident) (x : Ident) : M unit :=
  if existsb (Ident_eqb x) scope then ret tt
  else throw (ReferenceErr (Ident_name x ++ js " is not defined")).

(** [data.f] on the parsed body: a TypeError on [null]. *)
Definition getField {A} (data : option Body) (f : Body -> A) (name : string) : M A :=
  match data with
  | Some b => ret (f b)
  | None =>
      throw (TypeErr (js "Cannot read properties of null (reading '"
                      ++ js name ++ js "')"))
  end.

(** [a.length] where [a] may be [undefined]. *)
Definition getLength {A} (a : option (list A)) : M nat :=
  match a with
  | Some l => ret (List.length l)
  | None => throw (TypeErr (js "Cannot read properties of undefined (reading 'length')"))
  end.

(** [a || []]: an array is truthy, empty or not. *)
Definition orEmpty {A} (a : option (list A)) : list A :=
  match a with Some l => l | None => [] end.

(** ToBoolean of a value that is a string or [undefined]. *)
Definition truthyOpt (v : option JSString) : bool :=
  match v with Some s => truthy s | None => false end.

(** [v || d] for a string or [undefined] on the left. *)
Definition orDefault (v : option JSString) (d : JSString) : JSString :=
  match v with
  | Some s => if truthy s then s else d
  | None => d
  end.

(** Number::toString of a status code. *)
Definition NumberToString (n : N) : JSString :=
  js (NilEmpty.string_of_uint (N.to_uint n)).

Definition API_BASE_URL : JSString := js "https://api.themoviedb.org/3".

Definition discoverEndpoint : JSString :=
  API_BASE_URL ++ js "/discover/movie?sort_by=popularity.desc".

Definition searchPrefix : JSString := API_BASE_URL ++ js "/search/movie?query=".

Definition trendingEndpoint : JSString := API_BASE_URL ++ js "/trending/movie/week".

Definition genericSearchError : JSString :=
  js "Error fetching movies. Please try again later.".

(** Lines 40-42, as a value: [None] when [encodeURIComponent] throws. *)
Definition endpointOf (query : JSString) : option JSString :=
  if truthy query
  then option_map (app searchPrefix) (encodeURIComponent query)
  else Some discoverEndpoint.

Definition strEqb (a b : JSString) : bool :=
  if list_eq_dec N.eq_dec a b then true else false.

(** [v === "False"] for a string or [undefined] on the left. *)
Definition isFalseString (v : option JSString) : bool :=
  match v with
  | Some s => strEqb s (js "False")
  | None => false
  end.

Section Resolvers.

(** The bindings in scope of the two function bodies (for [App.jsx],
    [imports]) and the collaborators of the run. *)
Variable scope : list Ident.
Variable w : World.

(** [fetch(endpoint, API_OPTIONS)]. *)
Definition fetchM (endpoint : JSString) : M HttpResponse :=
  emit (NetworkRead endpoint) ;; await (fetch w endpoint).

(** [getTrendingMovies()] of [appwrite.js]. *)
Definition getTrendingMoviesM : M (option (list Movie)) :=
  GetValue scope id_getTrendingMovies ;;
  fun m =>
    await (getTrendingMovies w (cacheReads m))
      {| state := state m; trace := trace m ++ [CacheRead];
         cacheReads := S (cacheReads m) |}.

(** [updateSearchCount(query, arg)] of [appwrite.js]; as in every call,
    the callee reference is evaluated before the argument list. *)
Definition updateSearchCountM (query : JSString) (arg : M (option Movie)) : M unit :=
  GetValue scope id_updateSearchCount ;;
  movie <- arg ;;
  emit (CounterWrite query movie) ;;
  await (updateSearchCount w query movie).

(** [saveTrendingMovies(args)]. *)
Definition saveTrendingMoviesM (args : M (list Movie)) : M unit :=
  GetValue scope id_saveTrendingMovies ;;
  movies <- args ;;
  emit (CacheWrite movies) ;;
  await (saveTrendingMovies w movies).

(** Lines 40-42: the endpoint expression; the URIError of
    [encodeURIComponent] is the only way it can throw. *)
Definition endpointFor (query : JSString) : M JSString :=
  match endpointOf query with
  | Some endpoint => ret endpoint
  | None => throw (URIErr (js "URI malformed"))
  end.

(** Lines 31-69; a call without argument passes the default [''] . *)
Definition fetchMovies (query : JSString) : M unit :=
  setIsLoading true ;;
  setErrorMessage emptyString ;;
  tryFinally
    (tryCatch
       ((if negb (truthyOpt (API_KEY w))
         then throw (Err (js "Missing TMDB API Key. Check your .env file."))
         else ret tt) ;;
        endpoint <- endpointFor query ;;
        response <- fetchM endpoint ;;
        (if negb (ok response)
         then throw (Err (js "HTTP error! status: " ++ NumberToString (status response)))
         else ret tt) ;;
        data <- await (json response) ;;
        flag <- getField data Response "Response" ;;
        (if isFalseString flag
         then
           (embedded <- getField data Error "Error" ;;
            setErrorMessage (orDefault embedded (js "Failed to fetch movies")) ;;
            setMovieList [] ;;
            return_)
         else ret tt) ;;
        found <- getField data results "results" ;;
        setMovieList (orEmpty found) ;;
        cond <- (if truthy query
                 then (rs <- getField data results "results" ;;
                       len <- getLength rs ;;
                       ret (0 <? len)%nat)
                 else ret false) ;;
        (if cond
         then updateSearchCountM query
                (rs <- getField data results "results" ;;
                 ret (nth_error (orEmpty rs) 0))
         else ret tt))
       (fun error =>
          console_error (js "Error fetching movies: " ++ errorToString error) ;;
          setErrorMessage genericSearchError))
    (setIsLoading false).

(** Lines 71-112. *)
Definition fetchTrendingMovies : M unit :=
  tryCatch
    (appwriteTrending <- getTrendingMoviesM ;;
     (if match appwriteTrending with
         | Some l => (0 <? List.length l)%nat
         | None => false
         end
      then (setTrendingMovies (orEmpty appwriteTrending) ;; return_)
      else ret tt) ;;
     (if negb (truthyOpt (API_KEY w))
      then throw (Err (js "Missing TMDB API Key. Check your .env file."))
      else ret tt) ;;
     response <- fetchM trendingEndpoint ;;
     (if negb (ok response)
      then throw (Err (js "HTTP error! status: " ++ NumberToString (status response)))
      else ret tt) ;;
     data <- await (json response) ;;
     found <- getField data results "results" ;;
     let trendingResults := orEmpty found in
     setTrendingMovies trendingResults ;;
     (if (0 <? List.length trendingResults)%nat
      then saveTrendingMoviesM (ret (firstn 20 trendingResults))
      else ret tt))
    (fun error =>
       console_error (js "Error fetching trending movies: " ++ errorToString error) ;;
       tryCatch
         (fallbackTrending <- getTrendingMoviesM ;;
          setTrendingMovies (orEmpty fallbackTrending))
         (fun appwriteError =>
            console_error (js "Appwrite fallback failed: " ++ errorToString appwriteError))).

(** The promise an [async] function returns for a body. *)
Definition async (body : M unit) (m : Machine) : Settled unit * Machine :=
  match body m with
  | (Throw e, m') => (Rejected e, m')
  | (_, m') => (Fulfilled tt, m')
  end.

Definition start (s : AppState) : Machine :=
  {| state := s; trace := []; cacheReads := 0 |}.

End Resolvers.

(** One invocation of each resolver of [App.jsx] from the state [s]. *)
Definition runSearch (w : World) (query : JSString) (s : AppState)
  : Settled unit * Machine :=
  async (fetchMovies imports w query) (start s).

Definition runTrending (w : World) (s : AppState) : Settled unit * Machine :=
  async (fetchTrendingMovies imports w) (start s).

(** The Trending Resolver as it would run in a module whose import
    declaration also listed [saveTrendingMovies]. *)
Definition runTrendingImporting (w : World) (s : AppState)
  : Settled unit * Machine :=
  async (fetchTrendingMovies (id_saveTrendingMovies :: imports) w) (start s).

(** Lines 163-173: what the movie section shows. *)
Inductive ResolutionState : Type :=
  | Loading
  | Failed (message : JSString)
  | Success (shown : list Movie).

Definition display (s : AppState) : ResolutionState :=
  if isLoading s then Loading
  else if truthy (errorMessage s) then Failed (errorMessage s)
  else Success (movieList s).

(** Line 154: the trending section shows the first five entries. *)
Definition displayedTrending (s : AppState) : list Movie :=
  firstn 5 (trendingMovies s).

(** Projections of a trace. *)
Definition networkReads (t : list Event) : list JSString :=
  flat_map (fun e => match e with NetworkRead u => [u] | _ => [] end) t.

Definition counterWrites (t : list Event) : list (JSString * option Movie) :=
  flat_map (fun e => match e with CounterWrite q m => [(q, m)] | _ => [] end) t.

Definition cacheWrites (t : list Event) : list (list Movie) :=
  flat_map (fun e => match e with CacheWrite l => [l] | _ => [] end) t.

Definition cacheReadCount (t : list Event) : nat :=
  List.length (filter (fun e => match e with CacheRead => true | _ => false end) t).

Definition finalState (r : Settled unit * Machine) : AppState := state (snd r).
Definition finalTrace (r : Settled unit * Machine) : list Event := trace (snd r).

(** The state a failed search leaves: the generic message, loading over,
    every other cell as it was. *)
Definition withSearchFailure (s : AppState) : AppState :=
  {| searchTerm := searchTerm s; debouncedSearchTerm := debouncedSearchTerm s;
     errorMessage := genericSearchError; movieList := movieList s;
     trendingMovies := trendingMovies s; isLoading := false |}.

(** What one cache read has to offer: nothing when it fails. *)
Definition cacheYield (p : Settled (option (list Movie))) : list Movie :=
  match p with
  | Fulfilled v => orEmpty v
  | Rejected _ => []
  end.

(** What the live trending feed has to offer: nothing when the credential
    is missing, the transport fails, or the body cannot be read. *)
Definition liveYield (w : World) : list Movie :=
  if truthyOpt (API_KEY w) then
    match fetch w trendingEndpoint with
    | Fulfilled response =>
        if ok response then
          match json response with
          | Fulfilled (Some data) => orEmpty (results data)
          | _ => []
          end
        else []
    | Rejected _ => []
    end
  else [].

(** ** Sample collaborators *)

Definition batman : Movie := {| id := 5; title := js "Batman" |}.
Definition joker : Movie := {| id := 7; title := js "Joker" |}.

Definition okResponse (data : Body) : HttpResponse :=
  {| ok := true; status := 200; json := Fulfilled (Some data) |}.

Definition resultsBody (l : list Movie) : Body :=
  {| Response := None; Error := None; results := Some l |}.

Definition errorBody (msg : option JSString) : Body :=
  {| Response := Some (js "False"); Error := msg; results := None |}.

(** A world from its credential, the provider's answer, the store's
    answers to cache reads and its answer to writes. *)
Definition sampleWorld (key : option JSString) (answer : Settled HttpResponse)
    (cache : nat -> Settled (option (list Movie))) (written : Settled unit) : World :=
  {| API_KEY := key;
     fetch := fun _ => answer;
     getTrendingMovies := cache;
     updateSearchCount := fun _ _ => written;
     saveTrendingMovies := fun _ => written |}.

Definition storeDown : JSError := Err (js "appwrite unreachable").
Definition networkDown : JSError := TypeErr (js "Failed to fetch").

End App.

(** ** The component around the resolvers: request options, effects, view *)

Module Page.
Import URI App.

(** Lines 15-21: the options every [fetch] is called with.  The template
    literal prints an undefined credential as ["undefined"]. *)
Record RequestOptions : Type := {
  method : JSString;
  accept : JSString;
  Authorization : JSString }.

Definition API_OPTIONS (w : World) : RequestOptions :=
  {| method := js "GET";
     accept := js "application/json";
     Authorization :=
       js "Bearer " ++ match API_KEY w with
                       | Some key => key
                       | None => js "undefined"
                       end |}.

(** The console lines of a trace. *)
Definition consoleErrors (t : list Event) : list JSString :=
  flat_map (fun e => match e with ConsoleError text => [text] | _ => [] end) t.

(** Lines 160-176: the children of the "All Movies" section below its
    heading.  An empty string on the left of [&&] renders nothing. *)
Inductive Node : Type :=
  | LoadingParagraph
  | ErrorParagraph (message : JSString)
  | MovieGrid (cards : list Movie).

Definition allMoviesSection (s : AppState) : list Node :=
  (if isLoading s then LoadingParagraph
   else if truthy (errorMessage s) then ErrorParagraph (errorMessage s)
   else MovieGrid (movieList s))
  :: (if truthy (errorMessage s) then [ErrorParagraph (errorMessage s)] else []).

(** ECMA-262 WhiteSpace and LineTerminator code points, all of them in
    the basic plane. *)
Definition isWhiteSpace (u : N) : bool :=
  existsb (N.eqb u)
    [0x9; 0xA; 0xB; 0xC; 0xD; 0x20; 0xA0; 0x1680; 0x2028; 0x2029; 0x202F;
     0x205F; 0x3000; 0xFEFF]%N
  || ((0x2000 <=? u) && (u <=? 0x200A))%N.

Fixpoint trimStart (s : JSString) : JSString :=
  match s with
  | c :: rest => if isWhiteSpace c then trimStart rest else s
  | [] => []
  end.

Definition trimEnd (s : JSString) : JSString := rev (trimStart (rev s)).

(** String.prototype.trim. *)
Definition trim (s : JSString) : JSString := trimEnd (trimStart s).

(** A call of one of the two resolvers; [FetchMovies None] is the call
    without argument. *)
Inductive Call : Type :=
  | FetchMovies (arg : option JSString)
  | FetchTrendingMovies.

(** The default parameter value of [fetchMovies]. *)
Definition queryOf (arg : option JSString) : JSString :=
  match arg with Some q => q | None => emptyString end.

(** Running a call to completion from a state. *)
Definition perform (w : World) (c : Call) (s : AppState) : AppState :=
  match c with
  | FetchMovies arg => finalState (runSearch w (queryOf arg) s)
  | FetchTrendingMovies => finalState (runTrending w s)
  end.

Definition performAll (w : World) (calls : list Call) (s : AppState) : AppState :=
  fold_left (fun st c => perform w c st) calls s.

(** The component as far as its three effects can tell: the state
    cells, the timers that are armed (identifier and the term their
    callback closed over), the timer the latest cleanup function closed
    over, and the next timer identifier. *)
Record Component : Type := {
  cells : AppState;
  timers : list (nat * JSString);
  cleanup : option nat;
  nextTimer : nat }.

Definition setSearchTerm (value : JSString) (s : AppState) : AppState :=
  {| searchTerm := value; debouncedSearchTerm := debouncedSearchTerm s;
     errorMessage := errorMessage s; movieList := movieList s;
     trendingMovies := trendingMovies s; isLoading := isLoading s |}.

Definition setDebouncedSearchTerm (value : JSString) (s : AppState) : AppState :=
  {| searchTerm := searchTerm s; debouncedSearchTerm := value;
     errorMessage := errorMessage s; movieList := movieList s;
     trendingMovies := trendingMovies s; isLoading := isLoading s |}.

(** [clearTimeout(id)]. *)
Definition clearTimeout (id : nat) (l : list (nat * JSString)) : list (nat * JSString) :=
  filter (fun t => negb (Nat.eqb (fst t) id)) l.

(** Lines 114-117, the effect without dependencies. *)
Definition mountEffect : list Call := [FetchMovies None; FetchTrendingMovies].

(** Lines 120-126, the effect on [searchTerm]: arm a timer whose
    callback sets the debounced term to the term of this render, and
    return the cleanup that clears it. *)
Definition debounceEffect (c : Component) : Component :=
  {| cells := cells c;
     timers := timers c ++ [(nextTimer c, searchTerm (cells c))];
     cleanup := Some (nextTimer c);
     nextTimer := S (nextTimer c) |}.

Definition runCleanup (c : Component) : Component :=
  match cleanup c with
  | Some id =>
      {| cells := cells c; timers := clearTimeout id (timers c);
         cleanup := None; nextTimer := nextTimer c |}
  | None => c
  end.

(** Lines 129-135, the effect on [debouncedSearchTerm]. *)
Definition searchEffect (c : Component) : list Call :=
  if truthy (trim (debouncedSearchTerm (cells c)))
  then [FetchMovies (Some (debouncedSearchTerm (cells c)))]
  else [FetchMovies None].

(** The first render: the three effects run in the order they are
    declared. *)
Definition mount : Component * list Call :=
  let c := debounceEffect
             {| cells := initialState; timers := []; cleanup := None;
                nextTimer := 0 |} in
  (c, mountEffect ++ searchEffect c).

(** What happens to the component afterwards: [setSearchTerm] is called
    (by the search box), or an armed timer fires. *)
Inductive Input : Type :=
  | SetSearchTerm (value : JSString)
  | TimerFires (id : nat).

Definition armed (id : nat) (l : list (nat * JSString)) : option JSString :=
  match find (fun t => Nat.eqb (fst t) id) l with
  | Some t => Some (snd t)
  | None => None
  end.

(** One input.  A state setter called with the current value does not
    render again; otherwise the effects whose dependency changed run,
    after the cleanup of their previous run. *)
Definition step (c : Component) (i : Input) : Component * list Call :=
  match i with
  | SetSearchTerm value =>
      if strEqb value (searchTerm (cells c)) then (c, [])
      else
        (debounceEffect
           (runCleanup
              {| cells := setSearchTerm value (cells c); timers := timers c;
                 cleanup := cleanup c; nextTimer := nextTimer c |}),
         [])
  | TimerFires id =>
      match armed id (timers c) with
      | None => (c, [])
      | Some captured =>
          if strEqb captured (debouncedSearchTerm (cells c))
          then
            ({| cells := cells c; timers := clearTimeout id (timers c);
                cleanup := cleanup c; nextTimer := nextTimer c |}, [])
          else
            let c' :=
              {| cells := setDebouncedSearchTerm captured (cells c);
                 timers := clearTimeout id (timers c);
                 cleanup := cleanup c; nextTimer := nextTimer c |} in
            (c', searchEffect c')
      end
  end.

(** A sequence of inputs, with the calls it issues in order. *)
Fixpoint steps (c : Component) (inputs : list Input) : Component * list Call :=
  match inputs with
  | [] => (c, [])
  | i :: rest =>
      let (c', calls) := step c i in
      let (c'', calls') := steps c' rest in
      (c'', calls ++ calls')
  end.

(** The component after the first render and a sequence of inputs. *)
Definition session (inputs : list Input) : Component * list Call :=
  let (c, calls) := mount in
  let (c', calls') := steps c inputs in
  (c', calls ++ calls').

(** The call the third effect issues for a debounced term. *)
Definition callFor (t : JSString) : Call :=
  if truthy (trim t) then FetchMovies (Some t) else FetchMovies None.

(** The state the search cells take after a search with a given message
    and list. *)
Definition afterSearch (message : JSString) (l : list Movie) (s : AppState) : AppState :=
  {| searchTerm := searchTerm s; debouncedSearchTerm := debouncedSearchTerm s;
     errorMessage := message; movieList := l;
     trendingMovies := trendingMovies s; isLoading := false |}.

(** A state with another trending list. *)
Definition withTrending (l : list Movie) (s : AppState) : AppState :=
  {| searchTerm := searchTerm s; debouncedSearchTerm := debouncedSearchTerm s;
     errorMessage := errorMessage s; movieList := movieList s;
     trendingMovies := l; isLoading := isLoading s |}.

(** The number of code units [encodeURIComponent] has to escape. *)
Definition escapedUnits (s : JSString) : nat :=
  List.length (filter (fun c => negb (unescaped c)) s).

(** The values passed to [setSearchTerm] and the number of timer
    firings in a sequence of inputs. *)
Definition valuesOf (inputs : list Input) : list JSString :=
  flat_map (fun i => match i with SetSearchTerm v => [v] | TimerFires _ => [] end) inputs.

Definition firings (inputs : list Input) : nat :=
  List.length (filter (fun i => match i with TimerFires _ => true | _ => false end) inputs).

(** The invariant of the debounce effect: no timer is armed and the
    debounced term has caught up, or the one armed timer carries the
    current term and is the one the cleanup will clear. *)
Definition settled (c : Component) : Prop :=
  timers c = []
  /\ debouncedSearchTerm (cells c) = searchTerm (cells c)
  \/ exists id, timers c = [(id, searchTerm (cells c))] /\ cleanup c = Some id.

(** [settled], and the current term is one of the values seen so far
    unless the two terms are still the initial empty string. *)
Definition tracked (seen : list JSString) (c : Component) : Prop :=
  settled c
  /\ (searchTerm (cells c) = emptyString /\ debouncedSearchTerm (cells c) = emptyString
      \/ In (searchTerm (cells c)) seen).

End Page.

(** ** The URI functions: encoding and decoding are inverse *)

Module URIFacts.
Import URI.
Local Open Scope N_scope.

Ltac Zify.zify_post_hook ::= Z.to_euclidean_division_equations.

Ltac bool_to_prop :=
  repeat match goal with
  | H : _ && _ = true |- _ => apply andb_true_iff in H; destruct H
  | H : _ && _ = false |- _ => apply andb_false_iff in H
  | H : negb _ = true |- _ => apply negb_true_iff in H
  | H : negb _ = false |- _ => apply negb_false_iff in H
  | H : (_ <? _) = true |- _ => apply N.ltb_lt in H
  | H : (_ <? _) = false |- _ => apply N.ltb_ge in H
  | H : (_ <=? _) = true |- _ => apply N.leb_le in H
  | H : (_ <=? _) = false |- _ => apply N.leb_gt in H
  | H : (_ =? _) = true |- _ => apply N.eqb_eq in H
  | H : (_ =? _) = false |- _ => apply N.eqb_neq in H
  end.

Example encode_reserved :
  encodeURIComponent (js "a b&c=d/e?") = Some (js "a%20b%26c%3Dd%2Fe%3F").
Proof. reflexivity. Qed.

Example decode_reserved :
  decodeURIComponent (js "a%20b%26c%3Dd%2Fe%3F") = Some (js "a b&c=d/e?").
Proof. reflexivity. Qed.

Example encode_beyond_ascii :
  encodeURIComponent [0xD83D; 0xDE00] = Some (js "%F0%9F%98%80")
  /\ decodeURIComponent (js "%F0%9F%98%80") = Some [0xD83D; 0xDE00]
  /\ encodeURIComponent [0xE9] = Some (js "%C3%A9")
  /\ encodeURIComponent [0x20AC] = Some (js "%E2%82%AC")
  /\ decodeURIComponent (js "%E2%82%AC%c3%a9") = Some [0x20AC; 0xE9].
Proof. repeat split; reflexivity. Qed.

Example encode_unpaired_surrogate :
  encodeURIComponent [0xD800] = None
  /\ encodeURIComponent [0x61; 0xDC00] = None
  /\ decodeURIComponent (js "%ED%A0%80") = None
  /\ decodeURIComponent (js "%C0%80") = None
  /\ decodeURIComponent (js "%4") = None.
Proof. repeat split; reflexivity. Qed.

(** *** Escape sequences *)

Lemma hexValue_hexDigit d : d < 16 -> hexValue (hexDigit d) = Some d.
Proof.
  intro H. unfold hexValue, hexDigit.
  destruct (d <? 10) eqn:E; bool_to_prop.
  - replace ((48 <=? 48 + d) && (48 + d <=? 57)) with true
      by (symmetry; apply andb_true_iff; split; apply N.leb_le; lia).
    f_equal; lia.
  - replace ((48 <=? 55 + d) && (55 + d <=? 57)) with false
      by (symmetry; apply andb_false_iff; right; apply N.leb_gt; lia).
    replace ((65 <=? 55 + d) && (55 + d <=? 70)) with true
      by (symmetry; apply andb_true_iff; split; apply N.leb_le; lia).
    f_equal; lia.
Qed.

Lemma ParseHexOctet_percent b :
  b < 256 -> ParseHexOctet (hexDigit (b / 16)) (hexDigit (b mod 16)) = Some b.
Proof.
  intro H. unfold ParseHexOctet.
  rewrite !hexValue_hexDigit by lia. f_equal. lia.
Qed.

Lemma unescaped_not_percent c : unescaped c = true -> (c =? 37) = false.
Proof.
  intro H. destruct (c =? 37) eqn:E; [|reflexivity].
  apply N.eqb_eq in E. subst c. vm_compute in H. discriminate.
Qed.

Lemma unescaped_ascii c : unescaped c = true -> c < 128.
Proof.
  unfold unescaped. rewrite existsb_exists. intros [x [Hin Hx]].
  apply N.eqb_eq in Hx. subst x.
  assert (F : forallb (fun u => u <? 128) unescapedSet = true) by (vm_compute; reflexivity).
  rewrite forallb_forall in F. apply N.ltb_lt. auto.
Qed.

Lemma unescaped_not_surrogate c :
  unescaped c = true -> isLeadingSurrogate c = false /\ isTrailingSurrogate c = false.
Proof.
  intro H. apply unescaped_ascii in H.
  unfold isLeadingSurrogate, isTrailingSurrogate.
  split; apply andb_false_iff; left; apply N.leb_gt; lia.
Qed.

Lemma hexDigit_unescaped d : d < 16 -> unescaped (hexDigit d) = true.
Proof.
  intro H.
  assert (E : d = N.of_nat (N.to_nat d)) by lia.
  remember (N.to_nat d) as k eqn:Ek.
  assert (Hk : (k < 16)%nat) by lia. clear Ek H. subst d.
  do 16 (destruct k as [|k]; [reflexivity|]). lia.
Qed.

Lemma unescapeItems_percentOctet b e :
  b < 256 ->
  unescapeItems (percentOctet b ++ e) = option_map (cons (Esc b)) (unescapeItems e).
Proof.
  intro H. unfold percentOctet. cbn [app unescapeItems].
  rewrite N.eqb_refl, ParseHexOctet_percent by assumption. reflexivity.
Qed.

Lemma unescapeItems_percentOctets bs e :
  Forall (fun b => b < 256) bs ->
  unescapeItems (percentOctets bs ++ e)
  = option_map (app (map Esc bs)) (unescapeItems e).
Proof.
  induction 1 as [|b bs Hb Hbs IH]; cbn [percentOctets flat_map map].
  - cbn [app]. destruct (unescapeItems e); reflexivity.
  - rewrite <- app_assoc, unescapeItems_percentOctet by assumption.
    fold (percentOctets bs). rewrite IH.
    destruct (unescapeItems e); reflexivity.
Qed.

Lemma percentOctets_urlSafe bs :
  Forall (fun b => b < 256) bs -> Forall urlSafe (percentOctets bs).
Proof.
  induction 1 as [|b bs Hb _ IH]; cbn [percentOctets flat_map]; [constructor|].
  unfold percentOctet. cbn [app].
  constructor; [right; reflexivity|].
  constructor; [left; apply hexDigit_unescaped; lia|].
  constructor; [left; apply hexDigit_unescaped; lia|].
  exact IH.
Qed.

(** *** UTF-8 *)

Lemma UTF8Octets_octets cp :
  cp < 0x110000 -> Forall (fun b => b < 256) (UTF8Octets cp).
Proof.
  intro H. unfold UTF8Octets.
  repeat match goal with
  | |- context [if ?b then _ else _] => destruct b eqn:?; bool_to_prop
  end; repeat constructor; lia.
Qed.

Ltac decide_if :=
  match goal with
  | |- context [if ?b then _ else _] =>
      let E := fresh "E" in
      destruct b eqn:E; bool_to_prop; try (exfalso; intuition lia)
  end.

Lemma decodeItems_UTF8Octets cp its :
  isScalar cp ->
  decodeItems (map Esc (UTF8Octets cp) ++ its)
  = option_map (app (UTF16EncodeCodePoint cp)) (decodeItems its).
Proof.
  intros [Hlt Hns]. unfold UTF8Octets.
  destruct (cp <? 0x80) eqn:E1; [|destruct (cp <? 0x800) eqn:E2;
    [|destruct (cp <? 0x10000) eqn:E3]]; bool_to_prop;
  cbn [map app decodeItems]; unfold isContinuation.
  1: { decide_if. unfold UTF16EncodeCodePoint. decide_if.
       destruct (decodeItems its); reflexivity. }
  all: repeat decide_if;
    try (exfalso;
         repeat (bool_to_prop; match goal with H : _ \/ _ |- _ => destruct H end);
         bool_to_prop; lia).
  all: match goal with
       | |- context [UTF16EncodeCodePoint ?v] =>
           tryif constr_eq v cp then fail else replace v with cp by lia
       end; reflexivity.
Qed.

Lemma surrogate_pair_scalar c d :
  isLeadingSurrogate c = true -> isTrailingSurrogate d = true ->
  isScalar (UTF16SurrogatePairToCodePoint c d)
  /\ UTF16EncodeCodePoint (UTF16SurrogatePairToCodePoint c d) = [c; d].
Proof.
  unfold isLeadingSurrogate, isTrailingSurrogate, isScalar,
    UTF16SurrogatePairToCodePoint, UTF16EncodeCodePoint.
  intros Hc Hd. bool_to_prop. split; [lia|].
  decide_if. f_equal; [|f_equal]; lia.
Qed.

Lemma bmp_scalar c :
  isCodeUnit c = true -> isLeadingSurrogate c = false -> isTrailingSurrogate c = false ->
  isScalar c /\ UTF16EncodeCodePoint c = [c].
Proof.
  unfold isCodeUnit, isLeadingSurrogate, isTrailingSurrogate, isScalar,
    UTF16EncodeCodePoint.
  intros Hu Hc Hd. bool_to_prop. split.
  - destruct Hc, Hd; bool_to_prop; lia.
  - decide_if. reflexivity.
Qed.

(** *** The round trip *)

Lemma decodeURIComponent_unescaped c e :
  unescaped c = true ->
  decodeURIComponent (c :: e) = option_map (cons c) (decodeURIComponent e).
Proof.
  intro H. unfold decodeURIComponent. cbn [unescapeItems].
  rewrite (unescaped_not_percent _ H).
  destruct (unescapeItems e); reflexivity.
Qed.

Lemma decodeURIComponent_percent cp e :
  isScalar cp ->
  decodeURIComponent (percentOctets (UTF8Octets cp) ++ e)
  = option_map (app (UTF16EncodeCodePoint cp)) (decodeURIComponent e).
Proof.
  intro H. unfold decodeURIComponent.
  rewrite unescapeItems_percentOctets by (apply UTF8Octets_octets, H).
  destruct (unescapeItems e) as [its|]; cbn [option_map]; [|reflexivity].
  apply decodeItems_UTF8Octets, H.
Qed.

Lemma encode_decode_bounded n :
  forall s e,
    (List.length s <= n)%nat ->
    forallb isCodeUnit s = true ->
    encodeURIComponent s = Some e ->
    decodeURIComponent e = Some s.
Proof.
  induction n as [|n IH]; intros s e Hlen Hu He.
  - destruct s; [|simpl in Hlen; lia]. injection He as <-. reflexivity.
  - destruct s as [|c rest]; [injection He as <-; reflexivity|].
    cbn [forallb] in Hu. apply andb_true_iff in Hu. destruct Hu as [Hc Hrest].
    cbn [List.length] in Hlen. cbn [encodeURIComponent] in He.
    destruct (unescaped c) eqn:Eu.
    + destruct (encodeURIComponent rest) as [e'|] eqn:Er; [|discriminate].
      injection He as <-.
      rewrite decodeURIComponent_unescaped by assumption.
      rewrite (IH rest e') by (assumption || lia). reflexivity.
    + destruct (isLeadingSurrogate c) eqn:El.
      * destruct rest as [|d rest']; [discriminate|].
        destruct (isTrailingSurrogate d) eqn:Et; [|discriminate].
        destruct (encodeURIComponent rest') as [e'|] eqn:Er; [|discriminate].
        injection He as <-.
        cbn [forallb] in Hrest. apply andb_true_iff in Hrest.
        destruct Hrest as [Hd Hrest']. cbn [List.length] in Hlen.
        destruct (surrogate_pair_scalar _ _ El Et) as [Hs Hp].
        rewrite decodeURIComponent_percent by assumption.
        rewrite (IH rest' e') by (assumption || lia). rewrite Hp. reflexivity.
      * destruct (isTrailingSurrogate c) eqn:Et; [discriminate|].
        destruct (encodeURIComponent rest) as [e'|] eqn:Er; [|discriminate].
        injection He as <-.
        destruct (bmp_scalar _ Hc El Et) as [Hs Hp].
        rewrite decodeURIComponent_percent by assumption.
        rewrite (IH rest e') by (assumption || lia). rewrite Hp. reflexivity.
Qed.

Lemma encodeURIComponent_urlSafe_bounded n :
  forall s e, (List.length s <= n)%nat ->
    forallb isCodeUnit s = true ->
    encodeURIComponent s = Some e -> Forall urlSafe e.
Proof.
  induction n as [|n IH]; intros s e Hlen Hu He.
  - destruct s; [|simpl in Hlen; lia]. injection He as <-. constructor.
  - destruct s as [|c rest]; [injection He as <-; constructor|].
    cbn [forallb] in Hu. apply andb_true_iff in Hu. destruct Hu as [Hc Hrest].
    cbn [List.length] in Hlen. cbn [encodeURIComponent] in He.
    destruct (unescaped c) eqn:Eu.
    + destruct (encodeURIComponent rest) as [e'|] eqn:Er; [|discriminate].
      injection He as <-. constructor; [left; exact Eu|].
      apply (IH rest); (assumption || lia).
    + destruct (isLeadingSurrogate c) eqn:El.
      * destruct rest as [|d rest']; [discriminate|].
        destruct (isTrailingSurrogate d) eqn:Et; [|discriminate].
        destruct (encodeURIComponent rest') as [e'|] eqn:Er; [|discriminate].
        injection He as <-.
        cbn [forallb] in Hrest. apply andb_true_iff in Hrest.
        destruct Hrest as [Hd Hrest']. cbn [List.length] in Hlen.
        destruct (surrogate_pair_scalar _ _ El Et) as [[Hs _] _].
        apply Forall_app. split.
        -- apply percentOctets_urlSafe, UTF8Octets_octets, Hs.
        -- apply (IH rest'); (assumption || lia).
      * destruct (isTrailingSurrogate c) eqn:Et; [discriminate|].
        destruct (encodeURIComponent rest) as [e'|] eqn:Er; [|discriminate].
        injection He as <-.
        destruct (bmp_scalar _ Hc El Et) as [[Hs _] _].
        apply Forall_app. split.
        -- apply percentOctets_urlSafe, UTF8Octets_octets, Hs.
        -- apply (IH rest); (assumption || lia).
Qed.

Lemma encodeURIComponent_total_bounded n :
  forall s, (List.length s <= n)%nat ->
    encodeURIComponent s <> None <-> isWellFormed s = true.
Proof.
  induction n as [|n IH]; intros s Hlen.
  - destruct s; [|simpl in Hlen; lia]. simpl. split; [reflexivity|discriminate].
  - destruct s as [|c rest]; [simpl; split; [reflexivity|discriminate]|].
    cbn [List.length] in Hlen. cbn [isWellFormed encodeURIComponent].
    destruct (unescaped c) eqn:Eu.
    + destruct (unescaped_not_surrogate _ Eu) as [-> ->].
      rewrite <- (IH rest) by lia.
      destruct (encodeURIComponent rest); simpl; intuition congruence.
    + destruct (isLeadingSurrogate c).
      * destruct rest as [|d rest']; [intuition congruence|].
        cbn [List.length] in Hlen.
        destruct (isTrailingSurrogate d); cbn [andb]; [|intuition congruence].
        rewrite <- (IH rest') by lia.
        destruct (encodeURIComponent rest'); simpl; intuition congruence.
      * destruct (isTrailingSurrogate c); [intuition congruence|].
        rewrite <- (IH rest) by lia.
        destruct (encodeURIComponent rest); simpl; intuition congruence.
Qed.

(** Whatever [encodeURIComponent] returns decodes back to its argument
    and is made of URL-safe code units only. *)
Lemma encode_decode s e :
  forallb isCodeUnit s = true ->
  encodeURIComponent s = Some e ->
  decodeURIComponent e = Some s /\ Forall urlSafe e.
Proof.
  intros Hu He. split.
  - exact (@encode_decode_bounded (List.length s) s e (le_n _) Hu He).
  - exact (@encodeURIComponent_urlSafe_bounded (List.length s) s e (le_n _) Hu He).
Qed.

(** [encodeURIComponent] throws exactly on the strings that are not
    well-formed UTF-16. *)
Lemma encodeURIComponent_total s :
  encodeURIComponent s <> None <-> isWellFormed s = true.
Proof. exact (@encodeURIComponent_total_bounded (List.length s) s (le_n _)). Qed.

End URIFacts.

(** ** The resolvers *)

Module AppFacts.
Import URI App.

Local Arguments js : simpl never.
Local Arguments genericSearchError : simpl never.
Local Arguments NumberToString : simpl never.
Local Arguments errorToString : simpl never.
Local Arguments endpointOf : simpl never.
Local Arguments orDefault : simpl never.
Local Arguments isFalseString : simpl never.
Local Arguments truthyOpt : simpl never.
Local Arguments truthy : simpl never.
Local Arguments trendingEndpoint : simpl never.
Local Arguments firstn : simpl never.

(** Symbolic execution of a run: unfold the statements down to the
    machine, then either follow the hypotheses about the world
    ([use_hyps]) or split on every answer the world can give
    ([all_cases]). *)
Ltac unfold_run :=
  unfold runSearch, runTrending, runTrendingImporting, async,
    fetchMovies, fetchTrendingMovies,
    endpointFor, fetchM, getTrendingMoviesM, updateSearchCountM,
    saveTrendingMoviesM, GetValue, getField, getLength, tryFinally, tryCatch,
    bind, ret, throw, return_, await, emit, modify, console_error,
    setIsLoading, setErrorMessage, setMovieList, setTrendingMovies, start,
    finalState, finalTrace, withSearchFailure, liveYield, cacheYield in *.

Ltac case_step :=
  match goal with
  | |- context [match ?x with _ => _ end] =>
      lazymatch x with
      | context [match _ with _ => _ end] => fail
      | negb ?y => destruct y eqn:?
      | _ => destruct x eqn:?
      end
  end.

Ltac use_hyps :=
  repeat (cbn;
          match goal with
          | H : ?l = _ |- context [?l] => rewrite H
          end);
  cbn.

Ltac all_cases := unfold_run; cbn; repeat (case_step; cbn).

(** *** The scenarios of the specification *)

Example scenario_batman :
  let w := sampleWorld (Some (js "token"))
             (Fulfilled (okResponse (resultsBody [batman])))
             (fun _ => Fulfilled (Some [])) (Fulfilled tt) in
  let r := runSearch w (js "batman") initialState in
  display (finalState r) = Success [batman]
  /\ finalTrace r =
       [NetworkRead (js "https://api.themoviedb.org/3/search/movie?query=batman");
        CounterWrite (js "batman") (Some batman)].
Proof. split; reflexivity. Qed.

Example scenario_empty_query :
  let w := sampleWorld (Some (js "token"))
             (Fulfilled (okResponse (resultsBody [])))
             (fun _ => Fulfilled (Some [])) (Fulfilled tt) in
  let r := runSearch w emptyString initialState in
  display (finalState r) = Success []
  /\ errorMessage (finalState r) = emptyString
  /\ finalTrace r =
       [NetworkRead
          (js "https://api.themoviedb.org/3/discover/movie?sort_by=popularity.desc")].
Proof. repeat split; reflexivity. Qed.

Example scenario_reserved_characters :
  let w := sampleWorld (Some (js "token"))
             (Fulfilled (okResponse (resultsBody [])))
             (fun _ => Fulfilled (Some [])) (Fulfilled tt) in
  networkReads (finalTrace (runSearch w (js "tom & jerry?") initialState)) =
    [js "https://api.themoviedb.org/3/search/movie?query=tom%20%26%20jerry%3F"].
Proof. reflexivity. Qed.

Example scenario_missing_results w s :
  let v := sampleWorld (Some (js "token"))
             (Fulfilled (okResponse
                {| Response := None; Error := None; results := None |}))
             (getTrendingMovies w) (Fulfilled tt) in
  display (finalState (runSearch v emptyString s)) = Success []
  /\ display (finalState (runSearch v (js "batman") s)) = Failed genericSearchError.
Proof. split; reflexivity. Qed.

(** *** Shared facts *)

Lemma truthy_orDefault v : truthy (orDefault v (js "Failed to fetch movies")) = true.
Proof.
  unfold orDefault. destruct v as [m|]; [|reflexivity].
  destruct (truthy m) eqn:E; [exact E|reflexivity].
Qed.

(** The network reads of a search: one, to the chosen endpoint, once the
    credential check and the endpoint expression have passed. *)
Lemma networkReads_runSearch w query s :
  networkReads (finalTrace (runSearch w query s)) =
    (if truthyOpt (API_KEY w)
     then match endpointOf query with Some endpoint => [endpoint] | None => [] end
     else []).
Proof. all_cases; reflexivity. Qed.

Lemma display_URIError w query s :
  truthyOpt (API_KEY w) = true ->
  endpointOf query = None ->
  display (finalState (runSearch w query s)) = Failed genericSearchError.
Proof. intros Hkey Hend. unfold_run. use_hyps. reflexivity. Qed.

Lemma endpointOf_encoded query segment :
  query <> [] ->
  encodeURIComponent query = Some segment ->
  endpointOf query = Some (searchPrefix ++ segment).
Proof.
  intros Hne He. unfold endpointOf. destruct query; [congruence|].
  unfold truthy. rewrite He. reflexivity.
Qed.

Lemma endpointOf_malformed query :
  isWellFormed query = false -> endpointOf query = None.
Proof.
  intro Hwf.
  assert (He : encodeURIComponent query = None).
  { destruct (encodeURIComponent query) eqn:He; [|reflexivity].
    assert (Hn : encodeURIComponent query <> None) by congruence.
    apply URIFacts.encodeURIComponent_total in Hn. congruence. }
  unfold endpointOf. destruct query; [discriminate|].
  unfold truthy. rewrite He. reflexivity.
Qed.

(** On the live path of [App.jsx] the write-back never leaves the
    module: resolving [saveTrendingMovies] throws, the catch block reads
    the cache again, and that second read decides the list. *)
Lemma live_path_rereads_cache w s response data top rest :
  getTrendingMovies w 0 = Fulfilled (Some []) ->
  truthyOpt (API_KEY w) = true ->
  fetch w trendingEndpoint = Fulfilled response ->
  ok response = true ->
  json response = Fulfilled (Some data) ->
  results data = Some (top :: rest) ->
  let r := runTrending w s in
  cacheWrites (finalTrace r) = []
  /\ cacheReadCount (finalTrace r) = 2%nat
  /\ trendingMovies (finalState r) =
       match getTrendingMovies w 1 with
       | Fulfilled again => orEmpty again
       | Rejected _ => top :: rest
       end.
Proof.
  intros Hcache Hkey Hfetch Hok Hjson Hres.
  unfold_run. use_hyps.
  destruct (getTrendingMovies w 1); cbn; repeat split; reflexivity.
Qed.

(** The same body with [saveTrendingMovies] in scope: one write of the
    first 20 live results; the live results stay when the write is
    fulfilled, and a rejected write sends the run through the same catch
    block. *)
Lemma persistence_when_imported w s response data top rest :
  getTrendingMovies w 0 = Fulfilled (Some []) ->
  truthyOpt (API_KEY w) = true ->
  fetch w trendingEndpoint = Fulfilled response ->
  ok response = true ->
  json response = Fulfilled (Some data) ->
  results data = Some (top :: rest) ->
  let r := runTrendingImporting w s in
  cacheWrites (finalTrace r) = [firstn 20 (top :: rest)]
  /\ (saveTrendingMovies w (firstn 20 (top :: rest)) = Fulfilled tt ->
      trendingMovies (finalState r) = top :: rest
      /\ cacheReadCount (finalTrace r) = 1%nat)
  /\ (forall reason,
      saveTrendingMovies w (firstn 20 (top :: rest)) = Rejected reason ->
      trendingMovies (finalState r) =
        match getTrendingMovies w 1 with
        | Fulfilled again => orEmpty again
        | Rejected _ => top :: rest
        end).
Proof.
  intros Hcache Hkey Hfetch Hok Hjson Hres.
  unfold_run. use_hyps.
  destruct (saveTrendingMovies w (firstn 20 (top :: rest))) as [[]|reason]; cbn.
  - repeat split; intros; try reflexivity; discriminate.
  - destruct (getTrendingMovies w 1); cbn; repeat split; intros;
      try reflexivity; discriminate.
Qed.

(** *** The Trending Resolver *)

(** C1, at the first run against an empty store: the cache read returns
    an empty list and the live feed answers with two movies, yet the
    list left in [trendingMovies] is empty and the trace holds no cache
    write.  Resolving [saveTrendingMovies], which line 9 does not import,
    throws a ReferenceError before any argument is evaluated; the catch
    block logs it, reads the (still empty) cache again and overwrites the
    live results with that read. *)
Theorem live_results_replaced_by_cache_reread :
  let w := sampleWorld (Some (js "token"))
             (Fulfilled (okResponse (resultsBody [batman; joker])))
             (fun _ => Fulfilled (Some [])) (Fulfilled tt) in
  let r := runTrending w initialState in
  getTrendingMovies w 0 = Fulfilled (Some [])
  /\ liveYield w = [batman; joker]
  /\ trendingMovies (finalState r) = []
  /\ cacheWrites (finalTrace r) = []
  /\ finalTrace r =
       [CacheRead; NetworkRead trendingEndpoint;
        ConsoleError (js "Error fetching trending movies: ReferenceError: saveTrendingMovies is not defined");
        CacheRead].
Proof. repeat split; reflexivity. Qed.

(** C4: when the first cache read returns a non-empty list, the run
    stores exactly that list, in its order, in [trendingMovies] (the
    section shows its first five entries), and its whole trace is that
    one cache read: no call to the live feed, no write. *)
Theorem cached_trending_served w s cached :
  getTrendingMovies w 0 = Fulfilled (Some cached) ->
  cached <> [] ->
  let r := runTrending w s in
  trendingMovies (finalState r) = cached
  /\ displayedTrending (finalState r) = firstn 5 cached
  /\ finalTrace r = [CacheRead]
  /\ networkReads (finalTrace r) = []
  /\ cacheWrites (finalTrace r) = []
  /\ fst r = Fulfilled tt.
Proof.
  intros Hcache Hne. destruct cached as [|m rest]; [congruence|].
  unfold_run. use_hyps. repeat split; reflexivity.
Qed.

Lemma cached_trending_served_witness :
  let five := [batman; joker; batman; joker; batman] in
  let w := sampleWorld None (Rejected networkDown)
             (fun _ => Fulfilled (Some five)) (Rejected storeDown) in
  trendingMovies (finalState (runTrending w initialState)) = five
  /\ networkReads (finalTrace (runTrending w initialState)) = [].
Proof.
  intros five w.
  pose proof (cached_trending_served w initialState five) as H.
  cbv zeta in H.
  destruct H as (H1 & _ & _ & H4 & _); [reflexivity|discriminate|].
  split; [exact H1|exact H4].
Defined.

(** C7: every run of the Trending Resolver, whatever the credential, the
    cache reads, the live feed and the write-back do, ends fulfilled
    (nothing is thrown to the caller), leaves the search display and the
    error message as they were, and leaves in [trendingMovies] a list that
    is the previous one, the yield of one of the two cache reads or the
    yield of the live feed.  When the list starts empty and the cache
    reads and the live feed all fail or are empty, the list is empty. *)
Theorem trending_always_delivers_a_list w s :
  let r := runTrending w s in
  fst r = Fulfilled tt
  /\ display (finalState r) = display s
  /\ errorMessage (finalState r) = errorMessage s
  /\ In (trendingMovies (finalState r))
        [trendingMovies s; cacheYield (getTrendingMovies w 0);
         cacheYield (getTrendingMovies w 1); liveYield w]
  /\ (trendingMovies s = [] ->
      cacheYield (getTrendingMovies w 0) = [] ->
      cacheYield (getTrendingMovies w 1) = [] ->
      liveYield w = [] ->
      trendingMovies (finalState r) = []).
Proof.
  cbv zeta.
  assert (H : fst (runTrending w s) = Fulfilled tt
    /\ display (finalState (runTrending w s)) = display s
    /\ errorMessage (finalState (runTrending w s)) = errorMessage s
    /\ In (trendingMovies (finalState (runTrending w s)))
        [trendingMovies s; cacheYield (getTrendingMovies w 0);
         cacheYield (getTrendingMovies w 1); liveYield w]).
  { all_cases.
    all: try (exfalso; cbn in *; congruence).
    all: repeat (split; [reflexivity|]).
    all: cbn; auto 6. }
  destruct H as (H1 & H2 & H3 & H4). repeat (split; [assumption|]).
  intros E0 E1 E2 E3. rewrite E0, E1, E2, E3 in H4.
  cbn in H4. intuition congruence.
Qed.

Lemma trending_always_delivers_a_list_witness :
  let w := sampleWorld None (Rejected networkDown)
             (fun _ => Rejected storeDown) (Rejected storeDown) in
  fst (runTrending w initialState) = Fulfilled tt
  /\ trendingMovies (finalState (runTrending w initialState)) = [].
Proof.
  intro w.
  pose proof (trending_always_delivers_a_list w initialState) as H.
  cbv zeta in H. destruct H as (H1 & _ & _ & _ & H5).
  split; [exact H1|]. apply H5; reflexivity.
Defined.

(** *** The Search Resolver *)

(** C8: without a credential the search makes no network call; its only
    effect outside the state is the console line carrying the
    configuration error.  The promise is fulfilled (nothing is thrown
    further), the previous state is changed only by the error message and
    the loading flag, and the display is [Failed] with the resolver's
    message. *)
Theorem missing_credential_surfaces_message w query s :
  truthyOpt (API_KEY w) = false ->
  runSearch w query s =
    (Fulfilled tt,
     {| state := withSearchFailure s;
        trace := [ConsoleError
                    (js "Error fetching movies: "
                     ++ errorToString
                          (Err (js "Missing TMDB API Key. Check your .env file.")))];
        cacheReads := 0 |})
  /\ display (finalState (runSearch w query s)) = Failed genericSearchError
  /\ networkReads (finalTrace (runSearch w query s)) = [].
Proof.
  intro Hkey. unfold_run. use_hyps. repeat split; reflexivity.
Qed.

Lemma missing_credential_surfaces_message_witness :
  let w := sampleWorld None (Fulfilled (okResponse (resultsBody [batman])))
             (fun _ => Fulfilled (Some [])) (Fulfilled tt) in
  truthyOpt (API_KEY w) = false
  /\ display (finalState (runSearch w (js "batman") initialState))
     = Failed (js "Error fetching movies. Please try again later.")
  /\ finalTrace (runSearch w (js "batman") initialState)
     = [ConsoleError
          (js "Error fetching movies: Error: Missing TMDB API Key. Check your .env file.")].
Proof.
  intro w.
  pose proof (missing_credential_surfaces_message w (js "batman") initialState) as H.
  destruct H as (H1 & H2 & _); [reflexivity|].
  split; [reflexivity|]. split; [exact H2|].
  unfold finalTrace. rewrite H1. reflexivity.
Defined.

(** C3: when the provider answers 2xx with a body whose [Response] field
    is the string "False", the display is [Failed] with the body's [Error]
    text when that is a non-empty string and with "Failed to fetch movies"
    otherwise; it is never [Success], and the movie list is empty. *)
Theorem embedded_error_flag_fails w query s endpoint response data :
  truthyOpt (API_KEY w) = true ->
  endpointOf query = Some endpoint ->
  fetch w endpoint = Fulfilled response ->
  ok response = true ->
  json response = Fulfilled (Some data) ->
  isFalseString (Response data) = true ->
  let final := finalState (runSearch w query s) in
  display final = Failed (orDefault (Error data) (js "Failed to fetch movies"))
  /\ (truthyOpt (Error data) = true -> Some (errorMessage final) = Error data)
  /\ (truthyOpt (Error data) = false ->
      errorMessage final = js "Failed to fetch movies")
  /\ (forall shown, display final <> Success shown)
  /\ movieList final = []
  /\ fst (runSearch w query s) = Fulfilled tt.
Proof.
  intros Hkey Hend Hfetch Hok Hjson Hflag.
  unfold_run. use_hyps. unfold display. cbn.
  rewrite truthy_orDefault.
  repeat split; try discriminate.
  - unfold orDefault, truthyOpt. destruct (Error data) as [m|]; [|discriminate].
    intros ->. reflexivity.
  - unfold orDefault, truthyOpt. destruct (Error data) as [m|]; [|reflexivity].
    intros ->. reflexivity.
Qed.

Lemma embedded_error_flag_fails_witness :
  let data := errorBody (Some (js "Movie not found!")) in
  let w := sampleWorld (Some (js "token")) (Fulfilled (okResponse data))
             (fun _ => Fulfilled (Some [])) (Fulfilled tt) in
  isFalseString (Response data) = true
  /\ display (finalState (runSearch w (js "batman") initialState))
     = Failed (js "Movie not found!").
Proof.
  intros data w. split; [reflexivity|].
  pose proof (embedded_error_flag_fails w (js "batman") initialState
                (searchPrefix ++ js "batman") (okResponse data) data) as H.
  cbv zeta in H.
  destruct H as (H1 & _); [reflexivity .. | exact H1].
Defined.

(** C5: a successful call for a non-empty query with at least one result
    issues exactly one counter write, for the query text and the first
    result; an empty query issues none in any world, and a body whose
    result list is empty or absent issues none either. *)
Theorem counter_write_issued_once w query s :
  (forall endpoint response data top rest,
      truthyOpt (API_KEY w) = true ->
      endpointOf query = Some endpoint ->
      fetch w endpoint = Fulfilled response ->
      ok response = true ->
      json response = Fulfilled (Some data) ->
      isFalseString (Response data) = false ->
      truthy query = true ->
      results data = Some (top :: rest) ->
      counterWrites (finalTrace (runSearch w query s)) = [(query, Some top)])
  /\ (truthy query = false ->
      counterWrites (finalTrace (runSearch w query s)) = [])
  /\ (forall endpoint response data,
      endpointOf query = Some endpoint ->
      fetch w endpoint = Fulfilled response ->
      json response = Fulfilled (Some data) ->
      orEmpty (results data) = [] ->
      counterWrites (finalTrace (runSearch w query s)) = []).
Proof.
  split; [|split].
  - intros endpoint response data top rest Hkey Hend Hfetch Hok Hjson Hflag Hq Hres.
    unfold_run. use_hyps. destruct (updateSearchCount w query (Some top)); reflexivity.
  - intro Hq. all_cases; try reflexivity; congruence.
  - intros endpoint response data Hend Hfetch Hjson Hres.
    unfold_run. cbn. rewrite Hend. cbn. rewrite Hfetch. cbn. rewrite Hjson. cbn.
    destruct (results data) as [l|]; cbn in Hres; [subst l|];
    repeat (case_step; cbn); reflexivity.
Qed.

Lemma counter_write_issued_once_witness :
  let w := sampleWorld (Some (js "token"))
             (Fulfilled (okResponse (resultsBody [batman; joker])))
             (fun _ => Fulfilled (Some [])) (Fulfilled tt) in
  counterWrites (finalTrace (runSearch w (js "batman") initialState))
  = [(js "batman", Some batman)]
  /\ counterWrites (finalTrace (runSearch w emptyString initialState)) = [].
Proof.
  intro w. split.
  - apply (proj1 (counter_write_issued_once w (js "batman") initialState)
             (searchPrefix ++ js "batman")
             (okResponse (resultsBody [batman; joker]))
             (resultsBody [batman; joker]) batman [joker]);
      reflexivity.
  - apply (proj1 (proj2 (counter_write_issued_once w emptyString initialState)));
      reflexivity.
Defined.

(** C2, as amended: for a non-empty query whose search returns at least
    one result, the movie list is the fetched results and the loading flag
    is false whatever the counter write does, and nothing is thrown
    further; but a rejected write is caught by the resolver's catch block,
    so the display is [Failed] with the generic message, and it is
    [Success] with the results only when the write is fulfilled. *)
Theorem counter_write_failure_shows_generic_error
    w query s endpoint response data top rest :
  truthyOpt (API_KEY w) = true ->
  truthy query = true ->
  endpointOf query = Some endpoint ->
  fetch w endpoint = Fulfilled response ->
  ok response = true ->
  json response = Fulfilled (Some data) ->
  isFalseString (Response data) = false ->
  results data = Some (top :: rest) ->
  let r := runSearch w query s in
  movieList (finalState r) = top :: rest
  /\ isLoading (finalState r) = false
  /\ fst r = Fulfilled tt
  /\ (forall reason, updateSearchCount w query (Some top) = Rejected reason ->
        display (finalState r) = Failed genericSearchError)
  /\ (updateSearchCount w query (Some top) = Fulfilled tt ->
        display (finalState r) = Success (top :: rest)).
Proof.
  intros Hkey Hq Hend Hfetch Hok Hjson Hflag Hres.
  unfold_run. use_hyps.
  destruct (updateSearchCount w query (Some top)) as [[]|reason]; cbn;
    repeat split; try reflexivity; intros; try discriminate; reflexivity.
Qed.

Lemma counter_write_failure_shows_generic_error_witness :
  let w := sampleWorld (Some (js "token"))
             (Fulfilled (okResponse (resultsBody [batman])))
             (fun _ => Fulfilled (Some [])) (Rejected storeDown) in
  updateSearchCount w (js "batman") (Some batman) = Rejected storeDown
  /\ movieList (finalState (runSearch w (js "batman") initialState)) = [batman]
  /\ display (finalState (runSearch w (js "batman") initialState))
     = Failed genericSearchError.
Proof.
  intro w. split; [reflexivity|].
  pose proof (counter_write_failure_shows_generic_error w (js "batman")
                initialState (searchPrefix ++ js "batman")
                (okResponse (resultsBody [batman])) (resultsBody [batman])
                batman []) as H.
  cbv zeta in H.
  destruct H as (H1 & _ & _ & H4 & _); try reflexivity.
  split; [exact H1|]. apply (H4 storeDown). reflexivity.
Defined.

(** C2 as stated does not hold: with the provider answering "batman"
    with one result and the store rejecting the counter write, the error
    message is not empty. *)
Lemma counter_write_failure_not_silent :
  ~ (forall w query s endpoint response data top rest reason,
       truthyOpt (API_KEY w) = true ->
       truthy query = true ->
       endpointOf query = Some endpoint ->
       fetch w endpoint = Fulfilled response ->
       ok response = true ->
       json response = Fulfilled (Some data) ->
       isFalseString (Response data) = false ->
       results data = Some (top :: rest) ->
       updateSearchCount w query (Some top) = Rejected reason ->
       movieList (finalState (runSearch w query s)) = top :: rest
       /\ errorMessage (finalState (runSearch w query s)) = emptyString).
Proof.
  intro H.
  specialize (H (sampleWorld (Some (js "token"))
                   (Fulfilled (okResponse (resultsBody [batman])))
                   (fun _ => Fulfilled (Some [])) (Rejected storeDown))
                (js "batman") initialState (searchPrefix ++ js "batman")
                (okResponse (resultsBody [batman])) (resultsBody [batman])
                batman [] storeDown
                eq_refl eq_refl eq_refl eq_refl eq_refl eq_refl eq_refl eq_refl eq_refl).
  destruct H as [_ H]. vm_compute in H. discriminate.
Qed.

(** C6, as amended: with a credential configured, an empty query is
    requested from the discovery endpoint; a non-empty query that is
    well-formed UTF-16 is requested from the keyword-search endpoint
    followed by its [encodeURIComponent] encoding, which is made of
    unreserved characters and percent signs only and which
    [decodeURIComponent] takes back to the query; for a query holding an
    unpaired surrogate no request is made and the generic error is
    displayed. *)
Theorem search_endpoint_choice w query s :
  truthyOpt (API_KEY w) = true ->
  forallb isCodeUnit query = true ->
  let r := runSearch w query s in
  (query = [] -> networkReads (finalTrace r) = [discoverEndpoint])
  /\ (query <> [] -> isWellFormed query = true ->
      exists segment,
        encodeURIComponent query = Some segment
        /\ networkReads (finalTrace r) = [searchPrefix ++ segment]
        /\ decodeURIComponent segment = Some query
        /\ Forall urlSafe segment)
  /\ (isWellFormed query = false ->
      networkReads (finalTrace r) = []
      /\ display (finalState r) = Failed genericSearchError).
Proof.
  intros Hkey Hu. cbv zeta. rewrite networkReads_runSearch, Hkey.
  split; [|split].
  - intros ->. reflexivity.
  - intros Hne Hwf.
    destruct (encodeURIComponent query) as [segment|] eqn:He.
    + exists segment.
      destruct (URIFacts.encode_decode query segment Hu He) as [Hd Hs].
      rewrite (endpointOf_encoded query segment Hne He).
      repeat split; assumption || reflexivity.
    + apply URIFacts.encodeURIComponent_total in Hwf. congruence.
  - intro Hwf. rewrite (endpointOf_malformed query Hwf).
    split; [reflexivity|].
    apply display_URIError; [assumption|]. apply endpointOf_malformed, Hwf.
Qed.

Lemma search_endpoint_choice_witness :
  let w := sampleWorld (Some (js "token"))
             (Fulfilled (okResponse (resultsBody [])))
             (fun _ => Fulfilled (Some [])) (Fulfilled tt) in
  isWellFormed (js "tom & jerry?") = true
  /\ exists segment,
       encodeURIComponent (js "tom & jerry?") = Some segment
       /\ networkReads (finalTrace (runSearch w (js "tom & jerry?") initialState))
          = [searchPrefix ++ segment]
       /\ decodeURIComponent segment = Some (js "tom & jerry?")
       /\ Forall urlSafe segment.
Proof.
  intro w. split; [reflexivity|].
  pose proof (search_endpoint_choice w (js "tom & jerry?") initialState) as H.
  cbv zeta in H.
  destruct H as (_ & H2 & _); try reflexivity.
  apply H2; [discriminate|reflexivity].
Defined.

(** C6 as stated does not hold for every query string: for the one-unit
    string made of the unpaired surrogate U+D800 no request is made. *)
Lemma unpaired_surrogate_not_requested :
  ~ (forall w query s,
       truthyOpt (API_KEY w) = true ->
       forallb isCodeUnit query = true ->
       (query = [] ->
        networkReads (finalTrace (runSearch w query s)) = [discoverEndpoint])
       /\ (query <> [] ->
           exists segment,
             networkReads (finalTrace (runSearch w query s))
             = [searchPrefix ++ segment]
             /\ decodeURIComponent segment = Some query)).
Proof.
  intro H.
  destruct (H (sampleWorld (Some (js "token"))
                 (Fulfilled (okResponse (resultsBody [batman])))
                 (fun _ => Fulfilled (Some [])) (Fulfilled tt))
              [0xD800%N] initialState eq_refl eq_refl) as [_ H2].
  destruct H2 as [segment [Hreads _]]; [discriminate|].
  vm_compute in Hreads. discriminate.
Qed.

(** C9, as amended: a search performs at most one network read, namely
    one to the chosen endpoint when the credential is configured and the
    endpoint expression does not throw, and none otherwise; it performs at
    most one counter write, and when it performs one the query is
    non-empty, the read was answered with a body whose result list is
    non-empty, and the write is for the query and the first result. *)
Theorem network_calls_per_search w query s :
  let t := finalTrace (runSearch w query s) in
  networkReads t =
    (if truthyOpt (API_KEY w)
     then match endpointOf query with Some endpoint => [endpoint] | None => [] end
     else [])
  /\ (List.length (networkReads t) <= 1)%nat
  /\ (List.length (counterWrites t) <= 1)%nat
  /\ (counterWrites t <> [] ->
      truthy query = true
      /\ exists endpoint response data top rest,
           networkReads t = [endpoint]
           /\ fetch w endpoint = Fulfilled response
           /\ json response = Fulfilled (Some data)
           /\ results data = Some (top :: rest)
           /\ counterWrites t = [(query, Some top)]).
Proof.
  all_cases.
  all: try (exfalso; cbn in *; congruence).
  all: split; [reflexivity|].
  all: split; [cbn; lia|].
  all: split; [cbn; lia|].
  all: cbn; intro Hne; try congruence.
  all: split; [congruence|].
  all: do 5 eexists; repeat split; eauto.
Qed.

Lemma network_calls_per_search_witness :
  let w := sampleWorld (Some (js "token"))
             (Fulfilled (okResponse (resultsBody [batman])))
             (fun _ => Fulfilled (Some [])) (Fulfilled tt) in
  let t := finalTrace (runSearch w (js "batman") initialState) in
  networkReads t = [searchPrefix ++ js "batman"]
  /\ exists endpoint response data top rest,
       networkReads t = [endpoint]
       /\ fetch w endpoint = Fulfilled response
       /\ json response = Fulfilled (Some data)
       /\ results data = Some (top :: rest)
       /\ counterWrites t = [(js "batman", Some top)].
Proof.
  intros w t.
  pose proof (network_calls_per_search w (js "batman") initialState) as H.
  cbv zeta in H. destruct H as (H1 & _ & _ & H4).
  split; [exact H1|]. apply H4. discriminate.
Defined.

(** C9 as stated does not hold: without a credential a search performs
    no network read. *)
Lemma not_exactly_one_network_read :
  ~ (forall w query s,
       List.length (networkReads (finalTrace (runSearch w query s))) = 1%nat
       /\ (List.length (counterWrites (finalTrace (runSearch w query s))) <= 1)%nat).
Proof.
  intro H.
  destruct (H (sampleWorld None (Fulfilled (okResponse (resultsBody [batman])))
                 (fun _ => Fulfilled (Some [])) (Fulfilled tt))
              (js "batman") initialState) as [H1 _].
  vm_compute in H1. discriminate.
Qed.

(** What every search keeps of the previous state.  It ends fulfilled
    with the loading flag false.  On a configuration failure (no
    credential) and on a transport failure (the fetch is rejected or
    answers outside 2xx) the final state is the previous one with the
    generic error message and the loading flag false: the movie list and
    every other cell are untouched.  On an embedded error flag the movie
    list is empty.  And a run that ends with an error message has changed
    the movie list in three cases only, all after a 2xx body was read:
    under the flag (emptied); for a non-empty query and a body without
    [results] (emptied, before [data.results.length] throws); for a
    non-empty query with results whose counter write was rejected
    (replaced by the results). *)
Lemma search_failure_frame w query s :
  let r := runSearch w query s in
  (fst r = Fulfilled tt /\ isLoading (finalState r) = false)
  /\ (truthyOpt (API_KEY w) = false -> finalState r = withSearchFailure s)
  /\ (forall endpoint,
        truthyOpt (API_KEY w) = true ->
        endpointOf query = Some endpoint ->
        (forall response, fetch w endpoint = Fulfilled response -> ok response = false) ->
        finalState r = withSearchFailure s)
  /\ (forall endpoint response data,
        truthyOpt (API_KEY w) = true ->
        endpointOf query = Some endpoint ->
        fetch w endpoint = Fulfilled response ->
        ok response = true ->
        json response = Fulfilled (Some data) ->
        isFalseString (Response data) = true ->
        movieList (finalState r) = [])
  /\ (errorMessage (finalState r) <> emptyString ->
      movieList (finalState r) <> movieList s ->
      exists endpoint response data,
        truthyOpt (API_KEY w) = true
        /\ endpointOf query = Some endpoint
        /\ fetch w endpoint = Fulfilled response
        /\ ok response = true
        /\ json response = Fulfilled (Some data)
        /\ (isFalseString (Response data) = true
            /\ movieList (finalState r) = []
            \/ isFalseString (Response data) = false
               /\ truthy query = true
               /\ results data = None
               /\ movieList (finalState r) = []
            \/ isFalseString (Response data) = false
               /\ truthy query = true
               /\ exists top rest reason,
                    results data = Some (top :: rest)
                    /\ movieList (finalState r) = top :: rest
                    /\ updateSearchCount w query (Some top) = Rejected reason)).
Proof.
  cbv zeta. split; [|split; [|split; [|split]]].
  - all_cases; split; reflexivity.
  - intro Hkey. unfold_run. use_hyps. reflexivity.
  - intros endpoint Hkey Hend Hfail. unfold_run. use_hyps.
    destruct (fetch w endpoint) as [response|reason] eqn:Hfetch; cbn; [|reflexivity].
    rewrite (Hfail response eq_refl). reflexivity.
  - intros endpoint response data Hkey Hend Hfetch Hok Hjson Hflag.
    unfold_run. use_hyps. reflexivity.
  - all_cases; intros He Hne; try congruence.
    all: try (exfalso; cbn in *; congruence).
    all: do 3 eexists; repeat (split; [first [reflexivity | eassumption]|]).
    all: first
      [ left; split; [assumption|reflexivity]
      | right; left; repeat (split; [first [reflexivity | eassumption]|]);
        reflexivity
      | right; right; repeat (split; [first [reflexivity | eassumption]|]);
        do 3 eexists; repeat (split; [first [reflexivity | eassumption]|]);
        eassumption ].
Qed.

Example search_failure_frame_transport :
  let shown := {| searchTerm := js "bat"; debouncedSearchTerm := js "bat";
                  errorMessage := emptyString; movieList := [batman; joker];
                  trendingMovies := [joker]; isLoading := false |} in
  let unavailable := {| ok := false; status := 503;
                        json := Rejected (Err (js "Unexpected end of JSON input")) |} in
  let w := sampleWorld (Some (js "token")) (Fulfilled unavailable)
             (fun _ => Fulfilled (Some [])) (Fulfilled tt) in
  movieList (finalState (runSearch w (js "bat") shown)) = [batman; joker]
  /\ finalState (runSearch w (js "bat") shown) = withSearchFailure shown.
Proof.
  intros shown unavailable w.
  pose proof (search_failure_frame w (js "bat") shown) as H.
  cbv zeta in H. destruct H as (_ & _ & H3 & _).
  assert (E : finalState (runSearch w (js "bat") shown) = withSearchFailure shown).
  { apply (H3 (searchPrefix ++ js "bat")); [reflexivity|reflexivity|].
    intros response Hr. injection Hr as <-. reflexivity. }
  split; [rewrite E; reflexivity|exact E].
Qed.

(** C10, at a 2xx answer without error flag and without [results] for
    the non-empty query "bat", from a state that shows two movies: line 57
    guards the missing field and stores the empty list, line 59 reads
    [data.results.length] without the guard and throws; the catch block
    sets the generic message.  The run is a failure without embedded flag,
    and it has emptied the movie list. *)
Theorem list_emptied_without_semantic_error :
  let data := {| Response := None; Error := None; results := None |} in
  let w := sampleWorld (Some (js "token")) (Fulfilled (okResponse data))
             (fun _ => Fulfilled (Some [])) (Fulfilled tt) in
  let shown := {| searchTerm := js "bat"; debouncedSearchTerm := js "bat";
                  errorMessage := emptyString; movieList := [batman; joker];
                  trendingMovies := [joker]; isLoading := false |} in
  let r := runSearch w (js "bat") shown in
  fetch w (searchPrefix ++ js "bat") = Fulfilled (okResponse data)
  /\ isFalseString (Response data) = false
  /\ display shown = Success [batman; joker]
  /\ movieList (finalState r) = []
  /\ display (finalState r) = Failed genericSearchError
  /\ finalTrace r =
       [NetworkRead (searchPrefix ++ js "bat");
        ConsoleError
          (js "Error fetching movies: TypeError: Cannot read properties of undefined (reading 'length')")].
Proof. repeat split; reflexivity. Qed.

End AppFacts.

(** ** More on the URI functions and the endpoint *)

Module URIMore.
Import URI App Page.
Local Open Scope N_scope.

Lemma percentOctets_length bs :
  List.length (percentOctets bs) = (3 * List.length bs)%nat.
Proof.
  induction bs as [|b bs IH]; [reflexivity|].
  cbn [percentOctets flat_map]. unfold percentOctet at 1.
  cbn [app List.length]. fold (percentOctets bs). rewrite IH. lia.
Qed.

Lemma UTF8Octets_length cp :
  (1 <= List.length (UTF8Octets cp) <= 4)%nat
  /\ (cp < 0x10000 -> (List.length (UTF8Octets cp) <= 3)%nat).
Proof.
  unfold UTF8Octets.
  destruct (cp <? 0x80); [cbn; lia|].
  destruct (cp <? 0x800); [cbn; lia|].
  destruct (cp <? 0x10000) eqn:E; [cbn; lia|].
  apply N.ltb_ge in E. cbn. split; [lia|]. intro H. lia.
Qed.

Lemma encode_length_bounded n :
  forall s e,
    (List.length s <= n)%nat ->
    encodeURIComponent s = Some e ->
    (List.length s + 2 * escapedUnits s <= List.length e)%nat
    /\ (forallb isCodeUnit s = true -> (List.length e <= 9 * List.length s)%nat).
Proof.
  induction n as [|n IH]; intros s e Hlen He.
  - destruct s; [|simpl in Hlen; lia]. injection He as <-. cbn. split; [lia|]. lia.
  - destruct s as [|c rest]; [injection He as <-; cbn; split; lia|].
    cbn [List.length] in Hlen. cbn [encodeURIComponent] in He.
    unfold escapedUnits. cbn [filter forallb List.length].
    destruct (unescaped c) eqn:Eu; cbn [negb].
    + destruct (encodeURIComponent rest) as [e'|] eqn:Er; [|discriminate].
      injection He as <-.
      destruct (IH rest e' ltac:(lia) Er) as [Hlo Hhi].
      unfold escapedUnits in Hlo. cbn [List.length]. split; [lia|].
      intro Hu. apply andb_true_iff in Hu. destruct Hu as [_ Hu].
      specialize (Hhi Hu). lia.
    + destruct (isLeadingSurrogate c) eqn:El.
      * destruct rest as [|d rest']; [discriminate|].
        destruct (isTrailingSurrogate d) eqn:Et; [|discriminate].
        destruct (encodeURIComponent rest') as [e'|] eqn:Er; [|discriminate].
        injection He as <-. cbn [List.length] in Hlen.
        destruct (IH rest' e' ltac:(lia) Er) as [Hlo Hhi].
        unfold escapedUnits in Hlo.
        assert (Hd : unescaped d = false).
        { destruct (unescaped d) eqn:Ed; [|reflexivity].
          destruct (URIFacts.unescaped_not_surrogate d Ed) as [_ H]. congruence. }
        cbn [filter forallb List.length]. rewrite Hd. cbn [negb List.length].
        rewrite length_app, percentOctets_length.
        pose proof (UTF8Octets_length (UTF16SurrogatePairToCodePoint c d)) as [[H1 H4] _].
        destruct (URIFacts.surrogate_pair_scalar c d El Et) as [[Hs Hns] _].
        assert (H4' : List.length (UTF8Octets (UTF16SurrogatePairToCodePoint c d)) = 4%nat).
        { unfold UTF8Octets, UTF16SurrogatePairToCodePoint.
          unfold isLeadingSurrogate, isTrailingSurrogate in El, Et.
          apply andb_true_iff in El, Et. destruct El as [El1 El2], Et as [Et1 Et2].
          apply N.leb_le in El1, El2, Et1, Et2.
          repeat match goal with
          | |- context [if ?b then _ else _] =>
              let E := fresh in destruct b eqn:E;
              [apply N.ltb_lt in E; lia|clear E]
          end. reflexivity. }
        rewrite H4'. split; [lia|].
        intro Hu. apply andb_true_iff in Hu. destruct Hu as [_ Hu].
        apply andb_true_iff in Hu. destruct Hu as [_ Hu].
        specialize (Hhi Hu). lia.
      * destruct (isTrailingSurrogate c) eqn:Et; [discriminate|].
        destruct (encodeURIComponent rest) as [e'|] eqn:Er; [|discriminate].
        injection He as <-.
        destruct (IH rest e' ltac:(lia) Er) as [Hlo Hhi].
        unfold escapedUnits in Hlo.
        rewrite length_app, percentOctets_length.
        pose proof (UTF8Octets_length c) as [[H1 H4] H3].
        cbn [List.length]. split; [lia|].
        intro Hu. apply andb_true_iff in Hu. destruct Hu as [Hc Hu].
        specialize (Hhi Hu). unfold isCodeUnit in Hc. apply N.ltb_lt in Hc.
        specialize (H3 ltac:(lia)). lia.
Qed.

(** X1: the encoding of a string of code units is at least as long as
    the string plus two more units for each unit that has to be escaped,
    and at most nine times as long. *)
Theorem encoded_length_bounds q e :
  forallb isCodeUnit q = true ->
  encodeURIComponent q = Some e ->
  (List.length q + 2 * escapedUnits q <= List.length e <= 9 * List.length q)%nat.
Proof.
  intros Hu He.
  destruct (encode_length_bounded (List.length q) q e (le_n _) He) as [Hlo Hhi].
  split; [exact Hlo|exact (Hhi Hu)].
Qed.

Lemma encoded_length_bounds_witness :
  let q := js "tom & jerry?" in
  let e := js "tom%20%26%20jerry%3F" in
  encodeURIComponent q = Some e
  /\ (List.length q + 2 * escapedUnits q <= List.length e <= 9 * List.length q)%nat.
Proof.
  intros q e. split; [reflexivity|].
  apply (encoded_length_bounds q e); reflexivity.
Defined.

Lemma escapedUnits_zero s :
  escapedUnits s = 0%nat -> forallb unescaped s = true.
Proof.
  unfold escapedUnits. induction s as [|c s IH]; [reflexivity|].
  cbn [filter forallb]. destruct (unescaped c); cbn [negb andb List.length].
  - exact IH.
  - discriminate.
Qed.

Lemma encode_unreserved s :
  forallb unescaped s = true -> encodeURIComponent s = Some s.
Proof.
  induction s as [|c s IH]; [reflexivity|].
  cbn [forallb encodeURIComponent]. intro H. apply andb_true_iff in H.
  destruct H as [Hc Hs]. rewrite Hc, (IH Hs). reflexivity.
Qed.

(** X2: [encodeURIComponent] returns its argument unchanged exactly
    when every code unit of it is in the unescaped set. *)
Theorem encode_identity_iff_unreserved q :
  encodeURIComponent q = Some q <-> forallb unescaped q = true.
Proof.
  split; [|apply encode_unreserved].
  intro He.
  destruct (encode_length_bounded (List.length q) q q (le_n _) He) as [Hlo _].
  apply escapedUnits_zero. lia.
Qed.

Lemma encode_identity_iff_unreserved_witness :
  forallb unescaped (js "batman") = true
  /\ encodeURIComponent (js "batman") = Some (js "batman").
Proof.
  split; [reflexivity|].
  apply (proj2 (encode_identity_iff_unreserved (js "batman"))). reflexivity.
Defined.

Lemma urlSafe_not_reserved c :
  urlSafe c ->
  c < 128 /\ c <> 63 /\ c <> 38 /\ c <> 35 /\ c <> 61 /\ c <> 47 /\ c <> 32 /\ c <> 43.
Proof.
  intros [H| ->]; [|repeat split; lia || discriminate].
  split; [apply URIFacts.unescaped_ascii, H|].
  repeat split; intros ->; vm_compute in H; discriminate.
Qed.

Lemma count_occ_safe (x : N) l :
  Forall (fun c => c <> x) l -> count_occ N.eq_dec l x = 0%nat.
Proof.
  intro H. apply count_occ_not_In. rewrite Forall_forall in H.
  intro Hin. exact (H x Hin eq_refl).
Qed.

(** X3: whatever the query, the endpoint holds exactly one ["?"] and
    one ["="] (those of the template), no ["&"], no ["#"], no space, and
    only ASCII: a query cannot add parameters to the request or end its
    query string. *)
Theorem endpoint_has_one_parameter q e :
  forallb isCodeUnit q = true ->
  endpointOf q = Some e ->
  count_occ N.eq_dec e 63 = 1%nat
  /\ count_occ N.eq_dec e 61 = 1%nat
  /\ count_occ N.eq_dec e 38 = 0%nat
  /\ count_occ N.eq_dec e 35 = 0%nat
  /\ count_occ N.eq_dec e 32 = 0%nat
  /\ Forall (fun c => c < 128) e.
Proof.
  intros Hu He. unfold endpointOf in He.
  destruct (truthy q).
  - destruct (encodeURIComponent q) as [seg|] eqn:Eq; [|discriminate].
    assert (E : e = searchPrefix ++ seg) by (cbn [option_map] in He; congruence).
    clear He. subst e.
    destruct (URIFacts.encode_decode q seg Hu Eq) as [_ Hsafe].
    assert (Hr : Forall (fun c => c < 128 /\ c <> 63 /\ c <> 38 /\ c <> 35
                          /\ c <> 61 /\ c <> 47 /\ c <> 32 /\ c <> 43) seg).
    { eapply Forall_impl; [|exact Hsafe]. intros c. apply urlSafe_not_reserved. }
    assert (Hz : forall x, In x [63; 61; 38; 35; 32] ->
                   count_occ N.eq_dec seg x = 0%nat).
    { intros x Hx. apply count_occ_safe.
      eapply Forall_impl; [|exact Hr]. cbv beta. intros c Hc.
      cbn [In] in Hx. intuition congruence. }
    rewrite !count_occ_app, !Hz by (cbn [In]; tauto).
    repeat split; try reflexivity.
    apply Forall_app. split.
    + apply Forall_forall. intros c Hc.
      assert (F : forallb (fun u => u <? 128) searchPrefix = true) by reflexivity.
      rewrite forallb_forall in F. apply N.ltb_lt, F, Hc.
    + eapply Forall_impl; [|exact Hr]. cbv beta. intros c Hc. tauto.
  - injection He as <-. repeat split; try reflexivity.
    apply Forall_forall. intros c Hc.
    assert (F : forallb (fun u => u <? 128) discoverEndpoint = true) by reflexivity.
    rewrite forallb_forall in F. apply N.ltb_lt, F, Hc.
Qed.

Lemma endpoint_has_one_parameter_witness :
  let q := js "a&b=c?d#e f" in
  exists e, endpointOf q = Some e
    /\ count_occ N.eq_dec e 63 = 1%nat
    /\ count_occ N.eq_dec e 38 = 0%nat.
Proof.
  intro q. eexists. split; [reflexivity|].
  destruct (endpoint_has_one_parameter q _ eq_refl eq_refl) as (H1 & _ & H3 & _).
  split; [exact H1|exact H3].
Defined.

Lemma endpointOf_inj q1 q2 e :
  forallb isCodeUnit q1 = true ->
  forallb isCodeUnit q2 = true ->
  endpointOf q1 = Some e ->
  endpointOf q2 = Some e ->
  q1 = q2.
Proof.
  intros Hu1 Hu2 H1 H2. unfold endpointOf in H1, H2.
  destruct q1 as [|c1 r1], q2 as [|c2 r2]; cbn [truthy] in H1, H2.
  - reflexivity.
  - destruct (encodeURIComponent (c2 :: r2)) as [s2|]; [|discriminate].
    cbn [option_map] in H2. rewrite <- H1 in H2.
    exfalso. vm_compute in H2. discriminate H2.
  - destruct (encodeURIComponent (c1 :: r1)) as [s1|]; [|discriminate].
    cbn [option_map] in H1. rewrite <- H2 in H1.
    exfalso. vm_compute in H1. discriminate H1.
  - destruct (encodeURIComponent (c1 :: r1)) as [s1|] eqn:E1; [|discriminate].
    destruct (encodeURIComponent (c2 :: r2)) as [s2|] eqn:E2; [|discriminate].
    cbn [option_map] in H1, H2. rewrite <- H1 in H2.
    assert (E : s2 = s1) by (apply (app_inv_head searchPrefix); congruence).
    subst s2.
    destruct (URIFacts.encode_decode _ _ Hu1 E1) as [D1 _].
    destruct (URIFacts.encode_decode _ _ Hu2 E2) as [D2 _].
    congruence.
Qed.

(** X4: two different queries are never requested from the same
    endpoint. *)
Theorem endpoint_injective q1 q2 e :
  forallb isCodeUnit q1 = true ->
  forallb isCodeUnit q2 = true ->
  endpointOf q1 = Some e ->
  endpointOf q2 = Some e ->
  q1 = q2.
Proof. apply endpointOf_inj. Qed.

Lemma endpoint_injective_witness :
  endpointOf (js " batman") = Some (searchPrefix ++ js "%20batman")
  /\ js " batman" = [32; 98; 97; 116; 109; 97; 110].
Proof.
  split; [reflexivity|].
  apply (endpoint_injective (js " batman") [32; 98; 97; 116; 109; 97; 110]
           (searchPrefix ++ js "%20batman")); reflexivity.
Defined.
End URIMore.

(** ** More on the resolvers *)

Module ResolverMore.
Import URI App Page AppFacts.

Local Arguments js : simpl never.
Local Arguments genericSearchError : simpl never.
Local Arguments NumberToString : simpl never.
Local Arguments errorToString : simpl never.
Local Arguments endpointOf : simpl never.
Local Arguments orDefault : simpl never.
Local Arguments isFalseString : simpl never.
Local Arguments truthyOpt : simpl never.
Local Arguments truthy : simpl never.
Local Arguments trendingEndpoint : simpl never.
Local Arguments discoverEndpoint : simpl never.
Local Arguments firstn : simpl never.

(** X5: with a credential, a 2xx answer of the discovery endpoint that
    carries no error flag makes the call without query end in the state
    with no error message, the body's results (none when the field is
    absent) and the loading flag false, whatever the state before; its
    trace is the single read of the discovery endpoint. *)
Theorem discovery_success w s response data :
  truthyOpt (API_KEY w) = true ->
  fetch w discoverEndpoint = Fulfilled response ->
  ok response = true ->
  json response = Fulfilled (Some data) ->
  isFalseString (Response data) = false ->
  runSearch w emptyString s =
    (Fulfilled tt,
     {| state := afterSearch emptyString (orEmpty (results data)) s;
        trace := [NetworkRead discoverEndpoint];
        cacheReads := 0 |}).
Proof.
  intros Hkey Hfetch Hok Hjson Hflag.
  assert (Hend : endpointOf emptyString = Some discoverEndpoint) by reflexivity.
  assert (Hq : truthy emptyString = false) by reflexivity.
  unfold_run. use_hyps. reflexivity.
Qed.

Lemma discovery_success_witness :
  let w := sampleWorld (Some (js "token"))
             (Fulfilled (okResponse (resultsBody [batman; joker])))
             (fun _ => Fulfilled (Some [])) (Rejected storeDown) in
  let s := withSearchFailure initialState in
  errorMessage s = genericSearchError
  /\ display (finalState (runSearch w emptyString s)) = Success [batman; joker].
Proof.
  intros w s. split; [reflexivity|].
  rewrite (discovery_success w s (okResponse (resultsBody [batman; joker]))
             (resultsBody [batman; joker]));
    reflexivity.
Defined.

(** X6: for a non-empty query, a 2xx body without error flag and
    without a [results] field empties the movie list and then fails on
    [data.results.length]: the TypeError is logged, the generic message is
    set and no counter write is issued. *)
Theorem missing_results_fails_keyword_search w query s endpoint response data :
  truthyOpt (API_KEY w) = true ->
  truthy query = true ->
  endpointOf query = Some endpoint ->
  fetch w endpoint = Fulfilled response ->
  ok response = true ->
  json response = Fulfilled (Some data) ->
  isFalseString (Response data) = false ->
  results data = None ->
  runSearch w query s =
    (Fulfilled tt,
     {| state := afterSearch genericSearchError [] s;
        trace := [NetworkRead endpoint;
                  ConsoleError
                    (js "Error fetching movies: "
                     ++ errorToString
                          (TypeErr (js "Cannot read properties of undefined (reading 'length')")))];
        cacheReads := 0 |}).
Proof.
  intros Hkey Hq Hend Hfetch Hok Hjson Hflag Hres.
  unfold_run. use_hyps. reflexivity.
Qed.

Lemma missing_results_fails_keyword_search_witness :
  let data := {| Response := None; Error := None; results := None |} in
  let w := sampleWorld (Some (js "token")) (Fulfilled (okResponse data))
             (fun _ => Fulfilled (Some [])) (Fulfilled tt) in
  let s := afterSearch emptyString [batman] initialState in
  finalState (runSearch w (js "joker") s) = afterSearch genericSearchError [] s
  /\ counterWrites (finalTrace (runSearch w (js "joker") s)) = [].
Proof.
  intros data w s.
  rewrite (missing_results_fails_keyword_search w (js "joker") s
             (searchPrefix ++ js "joker") (okResponse data) data);
    try reflexivity.
  split; reflexivity.
Defined.

(** X7: an answer outside 2xx is never parsed: the state is the
    previous one with the generic message, and the trace is the read
    followed by one console line that carries the status code. *)
Theorem http_error_reported_with_status w query s endpoint response :
  truthyOpt (API_KEY w) = true ->
  endpointOf query = Some endpoint ->
  fetch w endpoint = Fulfilled response ->
  ok response = false ->
  runSearch w query s =
    (Fulfilled tt,
     {| state := withSearchFailure s;
        trace := [NetworkRead endpoint;
                  ConsoleError
                    (js "Error fetching movies: Error: HTTP error! status: "
                     ++ NumberToString (status response))];
        cacheReads := 0 |}).
Proof.
  intros Hkey Hend Hfetch Hok.
  unfold_run. use_hyps. reflexivity.
Qed.

Lemma http_error_reported_with_status_witness :
  let unauthorized :=
    {| ok := false; status := 401;
       json := Fulfilled (Some (errorBody (Some (js "Invalid API key")))) |} in
  let w := sampleWorld (Some (js "token")) (Fulfilled unauthorized)
             (fun _ => Fulfilled (Some [])) (Fulfilled tt) in
  finalTrace (runSearch w emptyString initialState)
  = [NetworkRead discoverEndpoint;
     ConsoleError (js "Error fetching movies: Error: HTTP error! status: 401")]
  /\ errorMessage (finalState (runSearch w emptyString initialState))
     = genericSearchError.
Proof.
  intros unauthorized w.
  rewrite (http_error_reported_with_status w emptyString initialState
             discoverEndpoint unauthorized);
    try reflexivity.
  split; reflexivity.
Defined.

(** X8: a search writes at most one console line; when it writes
    one the generic message is set, when it ends without error message it
    writes none, and the failure signalled by the embedded flag is not
    logged. *)
Theorem search_logs_only_generic_failures w query s :
  let r := runSearch w query s in
  (List.length (consoleErrors (finalTrace r)) <= 1)%nat
  /\ (consoleErrors (finalTrace r) <> [] ->
      errorMessage (finalState r) = genericSearchError)
  /\ (errorMessage (finalState r) = emptyString ->
      consoleErrors (finalTrace r) = [])
  /\ (forall endpoint response data,
        truthyOpt (API_KEY w) = true ->
        endpointOf query = Some endpoint ->
        fetch w endpoint = Fulfilled response ->
        ok response = true ->
        json response = Fulfilled (Some data) ->
        isFalseString (Response data) = true ->
        consoleErrors (finalTrace r) = []).
Proof.
  cbv zeta. split; [|split; [|split]].
  - all_cases; cbn; lia.
  - all_cases; cbn; intro H; congruence.
  - all_cases; cbn; intro H; try reflexivity; discriminate H.
  - intros endpoint response data Hkey Hend Hfetch Hok Hjson Hflag.
    unfold_run. use_hyps. reflexivity.
Qed.

Lemma search_logs_only_generic_failures_witness :
  let w := sampleWorld (Some (js "token"))
             (Fulfilled (okResponse (errorBody (Some (js "Movie not found!")))))
             (fun _ => Fulfilled (Some [])) (Fulfilled tt) in
  errorMessage (finalState (runSearch w (js "batman") initialState))
  = js "Movie not found!"
  /\ consoleErrors (finalTrace (runSearch w (js "batman") initialState)) = [].
Proof.
  intro w. split; [reflexivity|].
  pose proof (search_logs_only_generic_failures w (js "batman") initialState) as H.
  cbv zeta in H. destruct H as (_ & _ & _ & H4).
  apply (H4 (searchPrefix ++ js "batman")
            (okResponse (errorBody (Some (js "Movie not found!"))))
            (errorBody (Some (js "Movie not found!"))));
    reflexivity.
Defined.

Lemma search_state_shape w query :
  (forall s, finalState (runSearch w query s) = withSearchFailure s)
  \/ (exists message l,
        forall s, finalState (runSearch w query s) = afterSearch message l s).
Proof.
  all_cases.
  all: first [ left; intro; reflexivity
             | right; do 2 eexists; intro; reflexivity ].
Qed.

Lemma trending_state_shape w :
  (forall s, finalState (runTrending w s) = s)
  \/ (exists l, forall s, finalState (runTrending w s) = withTrending l s).
Proof.
  all_cases.
  all: first [ left; intros []; reflexivity
             | right; eexists; intro; reflexivity ].
Qed.

(** X9: running the same search again in the same world leaves the
    state the first run left. *)
Theorem search_idempotent w query s :
  finalState (runSearch w query (finalState (runSearch w query s)))
  = finalState (runSearch w query s).
Proof.
  destruct (search_state_shape w query) as [H|(message & l & H)];
    rewrite !H; reflexivity.
Qed.

(** X10: a search changes at most the error message, the movie
    list and the loading flag; a trending run changes at most the trending
    list; so the two runs lead to the same state in either order. *)
Theorem resolvers_touch_disjoint_cells w query s :
  let a := finalState (runSearch w query s) in
  let b := finalState (runTrending w s) in
  a = afterSearch (errorMessage a) (movieList a) s
  /\ b = withTrending (trendingMovies b) s
  /\ finalState (runTrending w a) = finalState (runSearch w query b).
Proof.
  cbv zeta.
  destruct (search_state_shape w query) as [Hs|(message & l & Hs)];
    destruct (trending_state_shape w) as [Ht|(l' & Ht)];
    rewrite !Hs, !Ht; destruct s; repeat split; reflexivity.
Qed.

(** X11: when either resolver performs a network read, the
    credential is a non-empty string and the Authorization header of
    [API_OPTIONS] is ["Bearer "] followed by it; and every read goes to a
    path under [API_BASE_URL]. *)
Theorem requests_carry_the_credential w query s :
  let reads := networkReads (finalTrace (runSearch w query s))
               ++ networkReads (finalTrace (runTrending w s)) in
  (reads <> [] ->
   exists key, API_KEY w = Some key /\ key <> []
               /\ Authorization (API_OPTIONS w) = js "Bearer " ++ key)
  /\ (forall endpoint, In endpoint reads ->
      exists path, endpoint = API_BASE_URL ++ path).
Proof.
  cbv zeta. split.
  - intro Hne.
    assert (Hkey : truthyOpt (API_KEY w) = true).
    { destruct (truthyOpt (API_KEY w)) eqn:E; [reflexivity|].
      exfalso. apply Hne. revert E. clear Hne.
      all_cases; intro E; try reflexivity; congruence. }
    unfold truthyOpt in Hkey. unfold API_OPTIONS. cbn [Authorization].
    destruct (API_KEY w) as [key|]; [|discriminate].
    exists key. repeat split. intros ->. discriminate.
  - intros endpoint Hin. apply in_app_or in Hin. destruct Hin as [Hin|Hin].
    + rewrite networkReads_runSearch in Hin.
      destruct (truthyOpt (API_KEY w)); [|destruct Hin].
      destruct (endpointOf query) as [e|] eqn:He; [|destruct Hin].
      destruct Hin as [<-|[]].
      unfold endpointOf in He. destruct (truthy query).
      * destruct (encodeURIComponent query) as [seg|]; [|discriminate].
        cbn [option_map] in He.
        exists (js "/search/movie?query=" ++ seg).
        unfold searchPrefix in He. rewrite <- app_assoc in He. congruence.
      * exists (js "/discover/movie?sort_by=popularity.desc").
        unfold discoverEndpoint in He. congruence.
    + exists (js "/trending/movie/week").
      revert Hin. all_cases; cbn; intro Hin; intuition (subst; reflexivity).
Qed.

Lemma requests_carry_the_credential_witness :
  let w := sampleWorld (Some (js "token"))
             (Fulfilled (okResponse (resultsBody [batman])))
             (fun _ => Fulfilled (Some [])) (Fulfilled tt) in
  networkReads (finalTrace (runSearch w (js "batman") initialState))
  = [searchPrefix ++ js "batman"]
  /\ exists key, API_KEY w = Some key /\ key <> []
                 /\ Authorization (API_OPTIONS w) = js "Bearer " ++ key.
Proof.
  intro w. split; [reflexivity|].
  apply (proj1 (requests_carry_the_credential w (js "batman") initialState)).
  discriminate.
Defined.

(** X12: the list a trending run leaves, case by case.  A rejected
    first cache read goes straight to the second cache read, without the
    live feed; a non-empty first read is served; otherwise the live feed
    is tried, an empty live result is served as it is, and in every other
    case the second cache read decides, the live results surviving only
    when that read is rejected. *)
Theorem trending_decision_table w s :
  let fallback :=
    match getTrendingMovies w 1 with
    | Fulfilled again => orEmpty again
    | Rejected _ => trendingMovies s
    end in
  trendingMovies (finalState (runTrending w s)) =
    match getTrendingMovies w 0 with
    | Rejected _ => fallback
    | Fulfilled first =>
        match orEmpty first with
        | (_ :: _) as cached => cached
        | [] =>
            if truthyOpt (API_KEY w) then
              match fetch w trendingEndpoint with
              | Fulfilled response =>
                  if ok response then
                    match json response with
                    | Fulfilled (Some data) =>
                        match orEmpty (results data) with
                        | [] => []
                        | (_ :: _) as live =>
                            match getTrendingMovies w 1 with
                            | Fulfilled again => orEmpty again
                            | Rejected _ => live
                            end
                        end
                    | _ => fallback
                    end
                  else fallback
              | Rejected _ => fallback
              end
            else fallback
        end
    end.
Proof.
  cbv zeta.
  all_cases; try reflexivity; cbn in *; try congruence; try discriminate.
Qed.

(** X13: a trending run never writes to the store; it reads the
    cache once or twice, reads the network at most once, at the trending
    endpoint and only after an empty first cache read with a credential;
    it reads the cache twice when the cache is empty and the live feed
    has results, and when the first cache read is rejected (then without
    any network read). *)
Theorem trending_never_writes w s :
  let t := finalTrace (runTrending w s) in
  cacheWrites t = []
  /\ counterWrites t = []
  /\ (1 <= cacheReadCount t <= 2)%nat
  /\ (networkReads t = [] \/ networkReads t = [trendingEndpoint])
  /\ (networkReads t <> [] ->
      cacheYield (getTrendingMovies w 0) = [] /\ truthyOpt (API_KEY w) = true)
  /\ (cacheYield (getTrendingMovies w 0) = [] -> liveYield w <> [] ->
      cacheReadCount t = 2%nat)
  /\ (forall reason, getTrendingMovies w 0 = Rejected reason ->
      networkReads t = [] /\ cacheReadCount t = 2%nat).
Proof.
  cbv zeta. unfold cacheReadCount.
  all_cases.
  all: try (exfalso; cbn in *; congruence).
  all: repeat (split; [first [reflexivity | cbn; lia | left; reflexivity
                             | right; reflexivity]|]).
  all: repeat match goal with |- _ /\ _ => split end.
  all: cbn in *; intros;
       repeat match goal with
       | H : List.length _ = 0%nat |- _ => apply length_zero_iff_nil in H
       end;
       repeat match goal with |- _ /\ _ => split end;
       subst; cbn in *; try reflexivity; try congruence.
Qed.

Lemma trending_never_writes_witness :
  let w := sampleWorld (Some (js "token"))
             (Fulfilled (okResponse (resultsBody [batman])))
             (fun _ => Rejected storeDown) (Fulfilled tt) in
  networkReads (finalTrace (runTrending w initialState)) = []
  /\ cacheReadCount (finalTrace (runTrending w initialState)) = 2%nat.
Proof.
  intro w.
  pose proof (trending_never_writes w initialState) as H.
  cbv zeta in H. destruct H as (_ & _ & _ & _ & _ & _ & H7).
  apply (H7 storeDown). reflexivity.
Defined.
End ResolverMore.

(** ** The effects and the view *)

Module PageFacts.
Import URI App Page.

Lemma strEqb_eq a b : strEqb a b = true <-> a = b.
Proof.
  unfold strEqb. destruct (list_eq_dec N.eq_dec a b); split; congruence.
Qed.

Lemma strEqb_neq a b : strEqb a b = false <-> a <> b.
Proof.
  unfold strEqb. destruct (list_eq_dec N.eq_dec a b); split; congruence.
Qed.

(** *** trim *)

Lemma trimStart_nil s : trimStart s = [] <-> forallb isWhiteSpace s = true.
Proof.
  induction s as [|c s IH]; cbn [trimStart forallb]; [tauto|].
  destruct (isWhiteSpace c); cbn [andb]; [exact IH|].
  split; discriminate.
Qed.

Lemma trimStart_suffix s : exists ws, s = ws ++ trimStart s /\ forallb isWhiteSpace ws = true.
Proof.
  induction s as [|c s [ws [E H]]]; [exists []; split; reflexivity|].
  cbn [trimStart]. destruct (isWhiteSpace c) eqn:Ec.
  - exists (c :: ws). cbn [app forallb]. rewrite Ec, H. split; [congruence|reflexivity].
  - exists []. split; reflexivity.
Qed.

Lemma trim_nil s : trim s = [] <-> forallb isWhiteSpace s = true.
Proof.
  unfold trim, trimEnd. split.
  - intro H. apply (f_equal (@rev N)) in H. rewrite rev_involutive in H.
    cbn [rev] in H. apply trimStart_nil in H.
    rewrite forallb_forall in H.
    assert (Hs : forallb isWhiteSpace (trimStart s) = true).
    { apply forallb_forall. intros x Hx. apply H, in_rev. rewrite rev_involutive. exact Hx. }
    destruct (trimStart_suffix s) as [ws [E Hws]].
    rewrite E, forallb_app, Hws, Hs. reflexivity.
  - intro H. apply trimStart_nil in H. rewrite H. reflexivity.
Qed.

Lemma callFor_default v :
  callFor v = FetchMovies None <-> forallb isWhiteSpace v = true.
Proof.
  unfold callFor. rewrite <- trim_nil.
  destruct (trim v); cbn [truthy]; split; congruence.
Qed.

(** *** the view *)

(** X14: after a search the movie section shows either the grid
    alone, or the error paragraph twice and no grid; never the loading
    text. *)
Theorem error_shown_twice_or_not_at_all w query s :
  let final := finalState (runSearch w query s) in
  errorMessage final = emptyString
  /\ allMoviesSection final = [MovieGrid (movieList final)]
  \/ errorMessage final <> emptyString
     /\ allMoviesSection final
        = [ErrorParagraph (errorMessage final); ErrorParagraph (errorMessage final)].
Proof.
  cbv zeta.
  assert (L : isLoading (finalState (runSearch w query s)) = false).
  { destruct (ResolverMore.search_state_shape w query) as [H|(m & l & H)];
      rewrite H; reflexivity. }
  unfold allMoviesSection. rewrite L.
  destruct (errorMessage (finalState (runSearch w query s))) as [|c r].
  - left. split; reflexivity.
  - right. split; [discriminate|reflexivity].
Qed.

(** *** the effects *)

Lemma step_settled c i : settled c -> settled (fst (step c i)).
Proof.
  intros H. destruct i as [value|id]; cbn [step].
  - destruct (strEqb value (searchTerm (cells c))) eqn:E; [exact H|].
    cbn [fst]. right. exists (nextTimer c).
    destruct H as [[Ht Hd]|[id [Ht Hc]]].
    + unfold runCleanup, debounceEffect. cbn.
      destruct (cleanup c); cbn; rewrite Ht; cbn; split; reflexivity.
    + unfold runCleanup, debounceEffect. cbn. rewrite Hc, Ht. cbn.
      rewrite Nat.eqb_refl. cbn. split; reflexivity.
  - destruct H as [[Ht Hd]|[id0 [Ht Hc]]].
    + rewrite Ht. cbn. left. split; assumption.
    + rewrite Ht. unfold armed. cbn.
      destruct (Nat.eqb id0 id) eqn:E; cbn.
      * destruct (strEqb (searchTerm (cells c)) (debouncedSearchTerm (cells c))) eqn:Es;
          cbn; rewrite ?E; cbn; left.
        -- apply strEqb_eq in Es. cbn. split; [reflexivity|congruence].
        -- split; reflexivity.
      * right. exists id0. split; assumption.
Qed.

Lemma steps_settled inputs : forall c, settled c -> settled (fst (steps c inputs)).
Proof.
  induction inputs as [|i rest IH]; intros c H; [exact H|].
  cbn [steps]. pose proof (step_settled c i H) as H1.
  destruct (step c i) as [c' calls]. cbn [fst] in H1.
  pose proof (IH c' H1) as H2.
  destruct (steps c' rest) as [c'' calls']. exact H2.
Qed.

Lemma mount_settled : settled (fst mount).
Proof. right. exists 0%nat. split; reflexivity. Qed.

(** X15: after the first render and any sequence of
    [setSearchTerm] calls and timer firings, at most one timer is armed; an
    armed timer carries the current search term and is the one the latest
    cleanup will clear; with no timer armed the debounced term equals the
    search term. *)
Theorem one_timer_for_the_current_term inputs :
  let c := fst (session inputs) in
  (List.length (timers c) <= 1)%nat
  /\ (forall id captured, In (id, captured) (timers c) ->
        captured = searchTerm (cells c) /\ cleanup c = Some id)
  /\ (timers c = [] -> debouncedSearchTerm (cells c) = searchTerm (cells c)).
Proof.
  cbv zeta. unfold session.
  pose proof mount_settled as Hm. destruct mount as [c0 calls0]. cbn [fst] in Hm.
  pose proof (steps_settled inputs c0 Hm) as H.
  destruct (steps c0 inputs) as [c calls]. cbn [fst] in *.
  destruct H as [[Ht Hd]|[id [Ht Hc]]]; rewrite Ht; cbn.
  - repeat split; try lia; try tauto.
  - split; [lia|]. split; [|discriminate].
    intros id' captured [E|[]]. injection E as <- <-. split; [reflexivity|exact Hc].
Qed.

Lemma one_timer_for_the_current_term_witness :
  let inputs := [SetSearchTerm (js "b"); SetSearchTerm (js "ba"); TimerFires 2] in
  timers (fst (session inputs)) = []
  /\ debouncedSearchTerm (cells (fst (session inputs))) = js "ba".
Proof.
  intro inputs. split; [reflexivity|].
  rewrite (proj2 (proj2 (one_timer_for_the_current_term inputs))); reflexivity.
Defined.

Lemma steps_app a : forall c b,
  steps c (a ++ b) =
    (fst (steps (fst (steps c a)) b),
     snd (steps c a) ++ snd (steps (fst (steps c a)) b)).
Proof.
  induction a as [|i a IH]; intros c b; cbn [app steps].
  - cbn. destruct (steps c b); reflexivity.
  - destruct (step c i) as [c1 k1]. rewrite IH.
    destruct (steps c1 a) as [c2 k2]. cbn [fst snd].
    destruct (steps c2 b) as [c3 k3]. cbn [fst snd]. rewrite app_assoc. reflexivity.
Qed.

Lemma searchEffect_callFor c : searchEffect c = [callFor (debouncedSearchTerm (cells c))].
Proof. unfold searchEffect, callFor. destruct (truthy _); reflexivity. Qed.

Lemma last_cons_default {A} (l : list A) x d : l <> [] -> last l x = last l d.
Proof.
  induction l as [|a l IH]; [congruence|]. intros _.
  destruct l as [|b l]; [reflexivity|].
  cbn [last]. cbn [last] in IH. apply IH. discriminate.
Qed.

Lemma typing_is_silent values : forall c,
  snd (steps c (map SetSearchTerm values)) = []
  /\ searchTerm (cells (fst (steps c (map SetSearchTerm values))))
     = last values (searchTerm (cells c)).
Proof.
  induction values as [|v values IH]; intro c; [split; reflexivity|].
  cbn [map steps step].
  destruct (strEqb v (searchTerm (cells c))) eqn:E.
  - destruct (IH c) as [H1 H2].
    destruct (steps c (map SetSearchTerm values)) as [c' k]. cbn [fst snd] in *.
    split; [exact H1|]. rewrite H2. apply strEqb_eq in E. subst v.
    destruct values; reflexivity.
  - match goal with |- context [steps ?c1 _] => destruct (IH c1) as [H1 H2] end.
    match goal with |- context [steps ?c1 _] =>
      destruct (steps c1 (map SetSearchTerm values)) as [c' k] end.
    cbn [fst snd] in *. split; [exact H1|]. rewrite H2.
    destruct values as [|j vs].
    + unfold debounceEffect, runCleanup. destruct (cleanup c); reflexivity.
    + transitivity (last (j :: vs) (searchTerm (cells c)));
        [apply last_cons_default; discriminate|reflexivity].
Qed.

Lemma timer_step c id :
  settled c ->
  snd (step c (TimerFires id)) = []
  \/ snd (step c (TimerFires id)) = [callFor (searchTerm (cells c))]
     /\ debouncedSearchTerm (cells (fst (step c (TimerFires id)))) = searchTerm (cells c).
Proof.
  intros [[Ht Hd]|[id0 [Ht Hc]]]; cbn [step]; rewrite Ht; unfold armed; cbn.
  - left. reflexivity.
  - destruct (Nat.eqb id0 id); cbn; [|left; reflexivity].
    destruct (strEqb _ _); cbn; [left; reflexivity|].
    right. rewrite searchEffect_callFor. cbn. split; reflexivity.
Qed.

(** X16: a run of [setSearchTerm] calls issues no resolver call;
    a timer firing after it issues none or exactly one, for the last term
    of the run, which is then the debounced term. *)
Theorem burst_searches_only_the_last_term inputs values id :
  values <> [] ->
  let before := session inputs in
  let after := session (inputs ++ map SetSearchTerm values ++ [TimerFires id]) in
  snd (session (inputs ++ map SetSearchTerm values)) = snd before
  /\ (snd after = snd before
      \/ snd after = snd before ++ [callFor (last values emptyString)]
         /\ debouncedSearchTerm (cells (fst after)) = last values emptyString).
Proof.
  intros Hne. cbv zeta. unfold session.
  pose proof mount_settled as Hm. destruct mount as [c0 k0]. cbn [fst] in Hm.
  rewrite !steps_app.
  pose proof (steps_settled inputs c0 Hm) as H1.
  destruct (steps c0 inputs) as [c1 k1]. cbn [fst snd] in *.
  destruct (typing_is_silent values c1) as [Hs Ht].
  pose proof (steps_settled (map SetSearchTerm values) c1 H1) as H2.
  destruct (steps c1 (map SetSearchTerm values)) as [c2 k2]. cbn [fst snd] in *.
  subst k2. rewrite !app_nil_r. split; [reflexivity|].
  cbn [steps]. destruct (timer_step c2 id H2) as [Hn|[Hc Hd]];
    destruct (step c2 (TimerFires id)) as [c3 k3]; cbn [fst snd] in *.
  - left. rewrite Hn. cbn. rewrite ?app_nil_r. reflexivity.
  - right. rewrite Hc, Hd, Ht, (last_cons_default values _ emptyString Hne).
    cbn. rewrite ?app_nil_r, ?app_assoc. split; reflexivity.
Qed.

Lemma burst_searches_only_the_last_term_witness :
  let values := [js "b"; js "ba"; js "bat"] in
  values <> []
  /\ snd (session (map SetSearchTerm values)) = snd (session [])
  /\ snd (session (map SetSearchTerm values ++ [TimerFires 3]))
     = snd (session []) ++ [FetchMovies (Some (js "bat"))].
Proof.
  intro values. split; [discriminate|].
  destruct (burst_searches_only_the_last_term [] values 3) as [H1 H2];
    [discriminate|].
  split; [exact H1|].
  destruct H2 as [H2|[H2 _]]; [vm_compute in H2; discriminate H2|exact H2].
Defined.

Lemma step_tracked seen c i :
  tracked seen c ->
  tracked (seen ++ valuesOf [i]) (fst (step c i))
  /\ (List.length (snd (step c i)) <= firings [i])%nat
  /\ (forall call, In call (snd (step c i)) ->
        exists v, In v (seen ++ valuesOf [i]) /\ call = callFor v).
Proof.
  intros [Hs Hv]. split; [split|].
  - apply step_settled, Hs.
  - destruct i as [value|id]; cbn [step valuesOf flat_map app].
    + destruct (strEqb value (searchTerm (cells c))) eqn:E; cbn [fst].
      * destruct Hv as [Hv|Hv]; [left; exact Hv|right; apply in_or_app; left; exact Hv].
      * right. unfold debounceEffect, runCleanup.
        destruct (cleanup c); cbn; apply in_or_app; right; left; reflexivity.
    + rewrite app_nil_r.
      destruct (armed id (timers c)) as [captured|] eqn:Ea; [|exact Hv].
      destruct (strEqb captured (debouncedSearchTerm (cells c))) eqn:E; cbn; [exact Hv|].
      destruct Hv as [[H1 H2]|Hv]; [|right; exact Hv].
      exfalso. apply strEqb_neq in E. apply E.
      destruct Hs as [[Ht _]|[id0 [Ht _]]]; rewrite Ht in Ea; unfold armed in Ea; cbn in Ea;
        [discriminate|].
      destruct (Nat.eqb id0 id); cbn in Ea; [|discriminate]. congruence.
  - destruct i as [value|id]; cbn [step valuesOf flat_map app firings filter].
    + destruct (strEqb value (searchTerm (cells c))); cbn; (split; [lia|intros call []]).
    + rewrite app_nil_r.
      destruct (armed id (timers c)) as [captured|] eqn:Ea;
        [|cbn; split; [lia|intros call []]].
      destruct (strEqb captured (debouncedSearchTerm (cells c))) eqn:E;
        [cbn; split; [lia|intros call []]|].
      cbn [snd]. rewrite searchEffect_callFor. cbn. split; [lia|].
      intros call [<-|[]]. exists captured. split; [|reflexivity].
      assert (Hc : captured = searchTerm (cells c)).
      { destruct Hs as [[Ht _]|[id0 [Ht _]]]; rewrite Ht in Ea; unfold armed in Ea;
          cbn in Ea; [discriminate|].
        destruct (Nat.eqb id0 id); cbn in Ea; [|discriminate]. congruence. }
      destruct Hv as [[H1 H2]|Hv]; [|congruence].
      exfalso. apply strEqb_neq in E. congruence.
Qed.

Lemma steps_tracked inputs : forall seen c,
  tracked seen c ->
  tracked (seen ++ valuesOf inputs) (fst (steps c inputs))
  /\ (List.length (snd (steps c inputs)) <= firings inputs)%nat
  /\ (forall call, In call (snd (steps c inputs)) ->
        exists v, In v (seen ++ valuesOf inputs) /\ call = callFor v).
Proof.
  induction inputs as [|i rest IH]; intros seen c H.
  - cbn. rewrite app_nil_r. split; [exact H|]. split; [lia|intros call []].
  - destruct (step_tracked seen c i H) as (H1 & H2 & H3).
    cbn [steps]. destruct (step c i) as [c1 k1]. cbn [fst snd] in *.
    destruct (IH _ c1 H1) as (J1 & J2 & J3).
    destruct (steps c1 rest) as [c2 k2]. cbn [fst snd] in *.
    assert (E : (seen ++ valuesOf [i]) ++ valuesOf rest = seen ++ valuesOf (i :: rest)).
    { rewrite <- app_assoc. f_equal. unfold valuesOf. cbn [flat_map].
      rewrite app_nil_r. reflexivity. }
    rewrite E in J1, J3. split; [exact J1|]. split.
    + rewrite length_app. unfold firings in *. cbn [filter] in *.
      destruct i; cbn [List.length] in *; lia.
    + intros call Hin. apply in_app_or in Hin. destruct Hin as [Hin|Hin].
      * destruct (H3 call Hin) as [v [Hv Hc]]. exists v. split; [|exact Hc].
        rewrite <- E. apply in_or_app. left. exact Hv.
      * apply J3, Hin.
Qed.

Lemma valuesOf_In v inputs : In v (valuesOf inputs) <-> In (SetSearchTerm v) inputs.
Proof.
  unfold valuesOf. rewrite in_flat_map. split.
  - intros [i [Hi Hv]]. destruct i as [v'|id]; [|destruct Hv].
    destruct Hv as [<-|[]]. exact Hi.
  - intro H. exists (SetSearchTerm v). split; [exact H|left; reflexivity].
Qed.

(** X17: after the calls of the first render, every resolver call
    is the search for a term that was passed to [setSearchTerm], and there
    are at most as many as timers fired. *)
Theorem only_set_terms_are_searched inputs :
  exists later,
    snd (session inputs) = snd mount ++ later
    /\ (List.length later <= firings inputs)%nat
    /\ (forall call, In call later ->
          exists v, In (SetSearchTerm v) inputs /\ call = callFor v).
Proof.
  unfold session.
  assert (Hm : tracked [] (fst mount)).
  { split; [apply mount_settled|left; split; reflexivity]. }
  destruct mount as [c0 k0]. cbn [fst snd] in *.
  destruct (steps_tracked inputs [] c0 Hm) as (_ & H2 & H3).
  destruct (steps c0 inputs) as [c k]. cbn [fst snd] in *.
  exists k. split; [reflexivity|]. split; [exact H2|].
  intros call Hin. destruct (H3 call Hin) as [v [Hv Hc]].
  exists v. split; [apply valuesOf_In, Hv|exact Hc].
Qed.

Lemma only_set_terms_are_searched_witness :
  let inputs := [SetSearchTerm (js "b"); TimerFires 0; TimerFires 1] in
  exists later,
    snd (session inputs) = snd mount ++ later
    /\ (List.length later <= 2)%nat
    /\ (forall call, In call later ->
          exists v, In (SetSearchTerm v) inputs /\ call = callFor v).
Proof.
  intro inputs. exact (only_set_terms_are_searched inputs).
Defined.

Lemma trim_sublist (P : N -> bool) s :
  forallb P s = true -> forallb P (trim s) = true.
Proof.
  intro H. rewrite forallb_forall in H. apply forallb_forall. intros x Hx.
  apply H. unfold trim, trimEnd in Hx. apply in_rev in Hx.
  destruct (trimStart_suffix (rev (trimStart s))) as [ws [E _]].
  assert (H1 : In x (rev (trimStart s))).
  { rewrite E. apply in_or_app. right. exact Hx. }
  apply in_rev in H1.
  destruct (trimStart_suffix s) as [ws' [E' _]].
  rewrite E'. apply in_or_app. right. exact H1.
Qed.

(** X18: a debounced term made of white space only is searched as
    the call without query; any other term is passed to the resolver as it
    is, not trimmed, so that a well-formed term with white space around it
    is requested from another endpoint than its trimmed form. *)
Theorem debounced_term_searched_as_typed w v s :
  (forallb isWhiteSpace v = true ->
   perform w (callFor v) s = finalState (runSearch w emptyString s))
  /\ (forallb isWhiteSpace v = false ->
      perform w (callFor v) s = finalState (runSearch w v s)
      /\ (truthyOpt (API_KEY w) = true ->
          forallb isCodeUnit v = true ->
          isWellFormed v = true ->
          trim v <> v ->
          networkReads (finalTrace (runSearch w v s))
          <> networkReads (finalTrace (runSearch w (trim v) s)))).
Proof.
  split.
  - intro H. apply callFor_default in H. rewrite H. reflexivity.
  - intro H.
    assert (Hc : callFor v = FetchMovies (Some v)).
    { unfold callFor. destruct (truthy (trim v)) eqn:E; [reflexivity|].
      assert (Ht : trim v = []) by (destruct (trim v); [reflexivity|discriminate]).
      apply trim_nil in Ht. congruence. }
    rewrite Hc. split; [reflexivity|].
    intros Hkey Hu Hwf Hne.
    rewrite !AppFacts.networkReads_runSearch, Hkey.
    assert (Hv : v <> []) by (intros ->; discriminate).
    destruct (encodeURIComponent v) as [seg|] eqn:He.
    + rewrite (AppFacts.endpointOf_encoded v seg Hv He).
      destruct (endpointOf (trim v)) as [e'|] eqn:Et; [|discriminate].
      intro Heq. injection Heq as Heq. subst e'.
      apply Hne. symmetry.
      apply (URIMore.endpointOf_inj v (trim v) (searchPrefix ++ seg));
        [exact Hu|apply trim_sublist, Hu
        |apply AppFacts.endpointOf_encoded; assumption|exact Et].
    + apply URIFacts.encodeURIComponent_total in Hwf. congruence.
Qed.

Lemma debounced_term_searched_as_typed_witness :
  let w := sampleWorld (Some (js "token"))
             (Fulfilled (okResponse (resultsBody [batman])))
             (fun _ => Fulfilled (Some [])) (Fulfilled tt) in
  trim (js " batman ") = js "batman"
  /\ networkReads (finalTrace (runSearch w (js " batman ") initialState))
     <> networkReads (finalTrace (runSearch w (trim (js " batman ")) initialState))
  /\ perform w (callFor (js "   ")) initialState
     = finalState (runSearch w emptyString initialState).
Proof.
  intro w. split; [reflexivity|].
  destruct (debounced_term_searched_as_typed w (js " batman ") initialState)
    as [_ H2].
  destruct (debounced_term_searched_as_typed w (js "   ") initialState)
    as [H1 _].
  split.
  - apply (proj2 (H2 eq_refl)); try reflexivity. discriminate.
  - apply H1. reflexivity.
Defined.

(** X19: the first render calls the Search Resolver without query
    twice and the Trending Resolver once; run one after another, the second
    search leaves the state of the first two calls and reads the same
    endpoint again. *)
Theorem mount_fetches_discovery_twice w s :
  snd mount = [FetchMovies None; FetchTrendingMovies; FetchMovies None]
  /\ performAll w (snd mount) s
     = performAll w [FetchMovies None; FetchTrendingMovies] s
  /\ (forall s', networkReads (finalTrace (runSearch w emptyString s'))
                 = networkReads (finalTrace (runSearch w emptyString s))).
Proof.
  split; [reflexivity|]. split.
  - cbn [mount snd performAll fold_left perform app mountEffect searchEffect
         debounceEffect cells]. cbn [queryOf].
    change (searchEffect _) with [FetchMovies None]. cbn [app fold_left perform queryOf].
    destruct (ResolverMore.search_state_shape w emptyString) as [Hs|(m & l & Hs)];
      destruct (ResolverMore.trending_state_shape w) as [Ht|(l' & Ht)];
      rewrite !Hs, !Ht; reflexivity.
  - intro s'. rewrite !AppFacts.networkReads_runSearch. reflexivity.
Qed.
End PageFacts.
